(** * Tier Nearest Scooter sensor: a shallow embedding of [sensor.py]

    The development follows the Python module top to bottom:
    - the Python values the module handles (parsed JSON, numbers, [None]);
    - the built-ins it calls ([bool], subscripting, iteration, [round],
      [sorted]) with the exceptions they raise;
    - a state-and-exception monad for the sensor object, the logger and the
      outbound requests;
    - [TierNearestScooterApi.get_vehicles] and
      [TierNearestScooterSensor.update];
    - the properties of the two methods.

    A finite number is the rational it denotes exactly, be it a Python [int]
    or a [float]; the infinities and NaN of [float] are values of their own.
    Where Python rounds to a [float], the model rounds to the nearest
    binary64 value. *)

From Stdlib Require Import QArith Qabs Qpower Lqa.
From stdpp Require Import gmap strings list fin_maps.

Local Open Scope Z_scope.
Local Open Scope string_scope.

(** ** Python values *)

Module Py.

(** What [response.json()] can return, which is also what the sensor stores
    in its attribute dictionary. A JSON object is a Python [dict] with string
    keys. [VNum] is an [int] or a finite [float], held as the rational it
    denotes; [VInf] and [VNaN] are the [float]s that are not finite, which
    the parser returns for [1e999], [Infinity] and [NaN]. *)
#[warnings="-register-all"]
Inductive value : Type :=
| VNone
| VBool (b : bool)
| VNum (q : Q)
| VInf (negative : bool)
| VNaN
| VStr (s : string)
| VList (l : list value)
| VDict (m : gmap string value).

(** The exception classes the module can meet. [RequestsJSONDecodeError] is
    the class of [requests] that derives from both [RequestException] and
    [ValueError]. *)
Inductive exc_class : Type :=
| ConnectionError
| HTTPError
| Timeout
| RequestException
| RequestsJSONDecodeError
| JSONDecodeError
| ValueError
| KeyError
| TypeError
| IndexError
| OverflowError.

Record exn : Type := Exn { exn_class : exc_class; exn_str : string }.

Definition issubclass_RequestException (c : exc_class) : bool :=
  match c with
  | ConnectionError | HTTPError | Timeout | RequestException
  | RequestsJSONDecodeError => true
  | _ => false
  end.

Definition issubclass_ValueError (c : exc_class) : bool :=
  match c with
  | RequestsJSONDecodeError | JSONDecodeError | ValueError => true
  | _ => false
  end.

Definition issubclass_KeyError (c : exc_class) : bool :=
  match c with
  | KeyError => true
  | _ => false
  end.

(** *** Numbers *)

Definition Qltb (a b : Q) : bool :=
  (Qnum a * Zpos (Qden b) <? Qnum b * Zpos (Qden a))%Z.

Definition Qis_zero (a : Q) : bool := (Qnum a =? 0)%Z.

(** [round(x)]: the nearest integer, a tie going to the even neighbour. *)
Definition round_half_even (x : Q) : Z :=
  let d := Zpos (Qden x) in
  let f := Qnum x / d in
  let r := 2 * (Qnum x mod d) in
  if (r <? d)%Z then f
  else if (d <? r)%Z then f + 1
  else if Z.even f then f else f + 1.

Definition pow2 (e : Z) : Q := Qpower 2 e.

Definition is_integer (q : Q) : bool := (Qnum q mod Zpos (Qden q) =? 0)%Z.

(** For [q] other than 0, the [e] with [2 ** e <= |q| < 2 ** (e + 1)]. *)
Definition binade (q : Q) : Z :=
  let e := Z.log2 (Z.abs (Qnum q)) - Z.log2 (Zpos (Qden q)) in
  if Qle_bool (pow2 e) (Qabs q) then e else e - 1.

(** The binary64 value nearest to [q], a tie going to the even significand:
    53 significant bits, on a grid no finer than [2 ** -1074]. The upper end
    of the format is left open; the numbers rounded here stay below it. *)
Definition round_to_double (q : Q) : Q :=
  if Qis_zero q then 0%Q
  else
    let u := Z.max (binade q - 52) (-1074) in
    Qred (inject_Z (round_half_even (q / pow2 u)) * pow2 u).

(** [x] to [ndigits] decimals: the nearest multiple of [10 ** -ndigits], a
    tie going to the even one. *)
Definition decimal (x : Q) (ndigits : nat) : Q :=
  let scale := 10 ^ Z.of_nat ndigits in
  Qmake (round_half_even (x * inject_Z scale)) (Z.to_pos scale).

(** [round(x, ndigits)] for a finite [x] and [ndigits >= 0]. An [int] is
    returned as it is, and so is a [float] that is a whole number; any other
    [float] is taken to [ndigits] decimals from its exact value, and the
    result is the [float] nearest to that decimal. *)
Definition round_ndigits (x : Q) (ndigits : nat) : Q :=
  if is_integer x then Qred x
  else round_to_double (decimal x ndigits).

Definition of_bool (b : bool) : Q := inject_Z (if b then 1 else 0).

(** *** Built-ins *)

(** [bool(v)], the test of an [if]. *)
Definition truthy (v : value) : bool :=
  match v with
  | VNone => false
  | VBool b => b
  | VNum q => negb (Qis_zero q)
  | VInf _ => true
  | VNaN => true
  | VStr s => negb (String.eqb s "")
  | VList l => match l with [] => false | _ => true end
  | VDict m => negb (bool_decide (m = ∅))
  end.

Definition type_name (v : value) : string :=
  match v with
  | VNone => "NoneType"
  | VBool _ => "bool"
  | VNum _ => "float"
  | VInf _ => "float"
  | VNaN => "float"
  | VStr _ => "str"
  | VList _ => "list"
  | VDict _ => "dict"
  end.

(** [v[key]] for a string [key]. *)
Definition getitem (v : value) (key : string) : exn + value :=
  match v with
  | VDict m =>
      match m !! key with
      | Some x => inr x
      | None => inl (Exn KeyError ("'" ++ key ++ "'"))
      end
  | VList _ =>
      inl (Exn TypeError "list indices must be integers or slices, not str")
  | VStr _ => inl (Exn TypeError "string indices must be integers")
  | _ => inl (Exn TypeError ("'" ++ type_name v ++ "' object is not subscriptable"))
  end.

(** [v[key] = x] for a string [key]; the updated object is returned. *)
Definition setitem (v : value) (key : string) (x : value) : exn + value :=
  match v with
  | VDict m => inr (VDict (<[key := x]> m))
  | VList _ =>
      inl (Exn TypeError "list indices must be integers or slices, not str")
  | _ =>
      inl (Exn TypeError
             ("'" ++ type_name v ++ "' object does not support item assignment"))
  end.

Fixpoint chars (s : string) : list value :=
  match s with
  | EmptyString => []
  | String c s' => VStr (String c EmptyString) :: chars s'
  end.

(** The items a [for] loop over [v] visits. A dictionary yields its keys. *)
Definition iter (v : value) : exn + list value :=
  match v with
  | VList l => inr l
  | VDict m => inr (VStr <$> (map_to_list m).*1)
  | VStr s => inr (chars s)
  | _ => inl (Exn TypeError ("'" ++ type_name v ++ "' object is not iterable"))
  end.

(** [round(v)] with one argument: an [int]. *)
Definition round1 (v : value) : exn + Z :=
  match v with
  | VNum q => inr (round_half_even q)
  | VBool b => inr (if b then 1 else 0)
  | VInf _ => inl (Exn OverflowError "cannot convert float infinity to integer")
  | VNaN => inl (Exn ValueError "cannot convert float NaN to integer")
  | _ =>
      inl (Exn TypeError
             ("type " ++ type_name v ++ " doesn't define __round__ method"))
  end.

(** [round(v, ndigits)]. *)
Definition round2 (v : value) (ndigits : nat) : exn + value :=
  match v with
  | VNum q => inr (VNum (round_ndigits q ndigits))
  | VBool b => inr (VNum (of_bool b))
  | VInf negative => inr (VInf negative)
  | VNaN => inr VNaN
  | _ =>
      inl (Exn TypeError
             ("type " ++ type_name v ++ " doesn't define __round__ method"))
  end.

(** A number as [<] sees it. *)
Inductive number : Type :=
| Finite (q : Q)
| Infinite (negative : bool)
| NotANumber.

Definition as_number (v : value) : option number :=
  match v with
  | VBool b => Some (Finite (of_bool b))
  | VNum q => Some (Finite q)
  | VInf negative => Some (Infinite negative)
  | VNaN => Some NotANumber
  | _ => None
  end.

Definition number_lt (x y : number) : bool :=
  match x, y with
  | Finite a, Finite b => Qltb a b
  | NotANumber, _ => false
  | _, NotANumber => false
  | Infinite true, Infinite true => false
  | Infinite true, _ => true
  | _, Infinite true => false
  | Infinite false, _ => false
  | Finite _, Infinite false => true
  end.

(** [a < b] on the keys [sorted] is given here. Numbers compare by value and
    strings by code point; [None] and a mix of types do not compare. *)
Definition lt (a b : value) : exn + bool :=
  let unsupported :=
    inl (Exn TypeError
           ("'<' not supported between instances of '" ++ type_name a
            ++ "' and '" ++ type_name b ++ "'")) in
  match a, b with
  | VStr x, VStr y => inr (String.ltb x y)
  | _, _ =>
      match as_number a, as_number b with
      | Some x, Some y => inr (number_lt x y)
      | _, _ => unsupported
      end
  end.

End Py.

Import Py.

(** ** Pure results: a value or a raised exception *)

#[export] Instance result_ret : MRet (sum exn) := fun A x => inr x.
#[export] Instance result_bind : MBind (sum exn) := fun A B f r =>
  match r with
  | inl e => inl e
  | inr x => f x
  end.
#[export] Instance result_fmap : FMap (sum exn) := fun A B f r =>
  match r with
  | inl e => inl e
  | inr x => inr (f x)
  end.

(** [sorted(l, key=...)]: the keys are computed once, in order, and the items
    are then put in increasing key order with [<] alone, equal keys keeping
    their input order. *)
Module Sorted.

Fixpoint insert (x : value * value) (l : list (value * value))
  : exn + list (value * value) :=
  match l with
  | [] => inr [x]
  | y :: l' =>
      b ← lt y.1 x.1;
      if b : bool then (cons y) <$> insert x l' else inr (x :: y :: l')
  end.

Fixpoint sort (l : list (value * value)) : exn + list (value * value) :=
  match l with
  | [] => inr []
  | x :: l' => s ← sort l'; insert x s
  end.

Fixpoint keys (key : value → exn + value) (l : list value)
  : exn + list (value * value) :=
  match l with
  | [] => inr []
  | x :: l' => k ← key x; kl ← keys key l'; inr ((k, x) :: kl)
  end.

Definition sorted (l : list value) (key : value → exn + value)
  : exn + list value :=
  kl ← keys key l; s ← sort kl; inr (s.*2).

End Sorted.

(** [l[0]] *)
Definition first_item (l : list value) : exn + value :=
  match l with
  | [] => inl (Exn IndexError "list index out of range")
  | x :: _ => inr x
  end.

(** ** The sensor object, the logger and the network *)

Record Api : Type := { _api_key : string }.

Record Sensor : Type := {
  _api : Api;
  _name : string;
  _latitude : Q;
  _longitude : Q;
  _radius : Q;
  _state : option Z;
  _attributes : gmap string value
}.

Definition with_state (x : option Z) (s : Sensor) : Sensor :=
  {| _api := _api s; _name := _name s; _latitude := _latitude s;
     _longitude := _longitude s; _radius := _radius s;
     _state := x; _attributes := _attributes s |}.

Definition with_attributes (a : gmap string value) (s : Sensor) : Sensor :=
  {| _api := _api s; _name := _name s; _latitude := _latitude s;
     _longitude := _longitude s; _radius := _radius s;
     _state := _state s; _attributes := a |}.

(** A call [_LOGGER.error(msg, *args)]. *)
Record LogRecord : Type := { log_msg : string; log_args : list string }.

(** A [requests] response, by what its two methods do when called. *)
Record Response : Type := {
  raise_for_status : option exn;
  json : exn + value
}.

(** Everything a method call can change: the sensor, the log (oldest record
    first), the URLs requested so far (oldest first) and the time stamp the
    throttle keeps. *)
Record World : Type := {
  self : Sensor;
  logged : list LogRecord;
  sent : list string;
  last_update : option Z
}.

Definition with_self (s : Sensor) (w : World) : World :=
  {| self := s; logged := logged w; sent := sent w;
     last_update := last_update w |}.

Definition add_log (r : LogRecord) (w : World) : World :=
  {| self := self w; logged := logged w ++ [r]; sent := sent w;
     last_update := last_update w |}.

Definition add_sent (resource : string) (w : World) : World :=
  {| self := self w; logged := logged w; sent := sent w ++ [resource];
     last_update := last_update w |}.

Definition stamp (now : Z) (w : World) : World :=
  {| self := self w; logged := logged w; sent := sent w;
     last_update := Some now |}.

Definition M (A : Type) : Type := World → (exn + A) * World.

#[export] Instance M_ret : MRet M := fun A x w => (inr x, w).
#[export] Instance M_bind : MBind M := fun A B f c w =>
  match c w with
  | (inl e, w') => (inl e, w')
  | (inr x, w') => f x w'
  end.

Definition lift {A} (r : exn + A) : M A := fun w => (r, w).

Definition get_self : M Sensor := fun w => (inr (self w), w).

Definition set_state (x : option Z) : M unit := fun w =>
  (inr tt, with_self (with_state x (self w)) w).

Definition set_attributes (a : gmap string value) : M unit := fun w =>
  (inr tt, with_self (with_attributes a (self w)) w).

(** [self._attributes[key] = x] *)
Definition set_attribute (key : string) (x : value) : M unit := fun w =>
  (inr tt,
   with_self (with_attributes (<[key := x]> (_attributes (self w))) (self w)) w).

Definition log_error (msg : string) (args : list string) : M unit := fun w =>
  (inr tt, add_log {| log_msg := msg; log_args := args |} w).

(** [try: body / except cls as ex: handler ex], for the class test [cls]. *)
Definition try_except {A} (body : M A) (cls : exc_class → bool)
    (handler : exn → M A) : M A := fun w =>
  match body w with
  | (inl e, w') => if cls (exn_class e) then handler e w' else (inl e, w')
  | (inr x, w') => (inr x, w')
  end.

(** ** Constants of the module and of [homeassistant.const] *)

Definition MIN_TIME_BETWEEN_UPDATES : Z := 10 * 60.
Definition DEFAULT_NAME : string := "Tier Nearest Scooter".
Definition DEFAULT_RADIUS : Q := inject_Z 500.
Definition ATTRIBUTION : string := "Data provided by Tier".

(** Modelled from the spec: the attribute keys, which the module imports from
    [homeassistant.const] and the spec lists as latitude, longitude, battery
    level and attribution. *)
Definition ATTR_ATTRIBUTION : string := "attribution".
Definition ATTR_BATTERY_LEVEL : string := "battery_level".
Definition ATTR_LATITUDE : string := "latitude".
Definition ATTR_LONGITUDE : string := "longitude".

(** ** The two classes *)

Section Sensor.

(** [str(x)] for a number, as an f-string prints it. *)
Variable str : Q → string.

(** [requests.get(resource, headers=..., verify=True, timeout=10)]: what the
    network answers to the [n]-th request of the run (counting from 0). *)
Variable network : nat → string → list (string * string) → exn + Response.

(** [homeassistant.util.location.distance(lat1, lon1, lat2, lon2)], in meters;
    its declared result is [float | None]. *)
Variable distance : value → value → Q → Q → exn + option Q.

Definition requests_get (resource : string) (headers : list (string * string))
    (verify : bool) (timeout : Z) : M Response := fun w =>
  (network (length (sent w)) resource headers, add_sent resource w).

Definition call_raise_for_status (response : Response) : M unit :=
  lift (match raise_for_status response with
        | Some e => inl e
        | None => inr tt
        end).

(** [TierNearestScooterApi.get_vehicles] *)
Definition get_vehicles (api : Api) (latitude longitude radius : Q) : M value :=
  let headers := [("x-api-key", _api_key api)] in
  let resource :=
    "https://platform.tier-services.io/vehicle"
    ++ "?lat=" ++ str latitude
    ++ "&lng=" ++ str longitude
    ++ "&radius=" ++ str radius in
  try_except
    (try_except
       (response ← requests_get resource headers true 10;
        _ ← call_raise_for_status response;
        lift (json response))
       issubclass_RequestException
       (fun ex =>
          _ ← log_error "Error fetching data: %s failed with %s"
                [resource; exn_str ex];
          mret VNone))
    issubclass_ValueError
    (fun ex =>
       _ ← log_error "Error parsing data: %s failed with %s"
             [resource; exn_str ex];
       mret VNone).

(** [TierNearestScooterSensor.__init__] *)
Definition init (api : Api) (name : string) (latitude longitude radius : Q)
  : Sensor :=
  {| _api := api; _name := name; _latitude := latitude;
     _longitude := longitude; _radius := radius;
     _state := None; _attributes := ∅ |}.

Definition of_option (d : option Q) : value :=
  match d with
  | Some q => VNum q
  | None => VNone
  end.

(** Lines 136-144 of [update]: the vehicles found in the fetched result;
    the empty dictionary [vehicles] starts as stands when there is none. *)
Definition extract_vehicles (result : value) : M value :=
  let vehicles := VDict ∅ in
  if truthy result then
    try_except
      (lift (getitem result "data"))
      issubclass_KeyError
      (fun ex =>
         _ ← log_error
               "Erroneous result found when expecting list of vehicles: %s"
               [exn_str ex];
         mret vehicles)
  else
    _ ← log_error "Empty result found when expecting list of vehicles" [];
    mret vehicles.

(** One turn of the [for] loop of [update]: the vehicle with its
    ["distance"] entry set. *)
Definition set_distance (latitude longitude : Q) (vehicle : value)
  : exn + value :=
  lat ← getitem vehicle "lat";
  lng ← getitem vehicle "lng";
  d ← distance lat lng latitude longitude;
  setitem vehicle "distance" (of_option d).

Fixpoint for_each (f : value → exn + value) (l : list value)
  : exn + list value :=
  match l with
  | [] => inr []
  | x :: l' => y ← f x; ys ← for_each f l'; inr (y :: ys)
  end.

(** Lines 147-152 of [update]: the loop that measures every vehicle and the
    choice of [scooter]. *)
Definition nearest_scooter (latitude longitude : Q) (vehicles : value)
  : exn + value :=
  items ← iter vehicles;
  items ← for_each (set_distance latitude longitude) items;
  sorted_items ← Sorted.sorted items (fun item => getitem item "distance");
  first_item sorted_items.

(** Lines 146-158 of [update]. *)
Definition report_nearest (s : Sensor) (vehicles : value) : M unit :=
  if truthy vehicles then
    scooter ← lift (nearest_scooter (_latitude s) (_longitude s) vehicles);
    d ← lift (getitem scooter "distance");
    st ← lift (round1 d);
    _ ← set_state (Some st);
    lat ← lift (getitem scooter "lat");
    lat ← lift (round2 lat 5);
    _ ← set_attribute ATTR_LATITUDE lat;
    lng ← lift (getitem scooter "lng");
    lng ← lift (round2 lng 5);
    _ ← set_attribute ATTR_LONGITUDE lng;
    battery ← lift (getitem scooter "batteryLevel");
    battery ← lift (round1 battery);
    _ ← set_attribute ATTR_BATTERY_LEVEL (VNum (inject_Z battery));
    set_attribute ATTR_ATTRIBUTION (VStr ATTRIBUTION)
  else
    mret tt.

(** The body of [TierNearestScooterSensor.update], without its decorator. *)
Definition update_body : M unit :=
  _ ← set_attributes ∅;
  _ ← set_state None;
  s ← get_self;
  result ← get_vehicles (_api s) (_latitude s) (_longitude s) (_radius s);
  vehicles ← extract_vehicles result;
  report_nearest s vehicles.

(** Modelled from the spec: the [Throttle] decorator of the host framework,
    whose code is not part of the repository. The spec describes it as an
    explicit guard: the time of the last invocation is stored, compared with
    the current time at call entry, and the body is skipped while less than
    the threshold has passed. [now] is the clock at call entry, in seconds. *)
Definition Throttle (min_time : Z) (body : M unit) (now : Z) : M unit := fun w =>
  match last_update w with
  | None => body (stamp now w)
  | Some t =>
      if (now - t <? min_time)%Z then (inr tt, w) else body (stamp now w)
  end.

(** [TierNearestScooterSensor.update] *)
Definition update : Z → M unit := Throttle MIN_TIME_BETWEEN_UPDATES update_body.

End Sensor.

(** ** Notions used to state the properties *)

(** The URL [get_vehicles] requests. *)
Definition request_url (str : Q → string) (latitude longitude radius : Q)
  : string :=
  "https://platform.tier-services.io/vehicle"
  ++ "?lat=" ++ str latitude
  ++ "&lng=" ++ str longitude
  ++ "&radius=" ++ str radius.

Definition request_headers (api : Api) : list (string * string) :=
  [("x-api-key", _api_key api)].

(** The throttle lets a call at time [now] through. *)
Definition permitted (now : Z) (w : World) : bool :=
  match last_update w with
  | None => true
  | Some t => negb (now - t <? MIN_TIME_BETWEEN_UPDATES)%Z
  end.

(** The world in which a permitted call at [now] fetches: the time is
    stamped and the reading reset. *)
Definition reset (now : Z) (w : World) : World :=
  with_self (with_state None (with_attributes ∅ (self w))) (stamp now w).

Definition number_at (v : value) (key : string) : option Q :=
  match v with
  | VDict m =>
      match m !! key with
      | Some (VNum q) => Some q
      | _ => None
      end
  | _ => None
  end.

(** The distance the sensor at [(latitude, longitude)] measures to a vehicle
    record, when the record has numeric coordinates and the measure is
    defined. *)
Definition distance_to
    (distance : value → value → Q → Q → exn + option Q)
    (latitude longitude : Q) (v : value) : option Q :=
  match number_at v "lat", number_at v "lng" with
  | Some a, Some b =>
      match distance (VNum a) (VNum b) latitude longitude with
      | inr (Some d) => Some d
      | _ => None
      end
  | _, _ => None
  end.

(** A vehicle record the selector can use: [lat], [lng] and [batteryLevel]
    are numbers and the distance is defined. *)
Definition is_vehicle_record
    (distance : value → value → Q → Q → exn + option Q)
    (latitude longitude : Q) (v : value) : bool :=
  match distance_to distance latitude longitude v, number_at v "batteryLevel" with
  | Some _, Some _ => true
  | _, _ => false
  end.

(** The attributes [update] reports for a vehicle at [(a, b)] with battery
    level [c]. *)
Definition reported_attributes (a b c : Q) : gmap string value :=
  <[ATTR_ATTRIBUTION := VStr ATTRIBUTION]>
    (<[ATTR_BATTERY_LEVEL := VNum (inject_Z (round_half_even c))]>
       (<[ATTR_LONGITUDE := VNum (round_ndigits b 5)]>
          (<[ATTR_LATITUDE := VNum (round_ndigits a 5)]> ∅))).

Definition attributes_of_vehicle (v : value) : option (gmap string value) :=
  match number_at v "lat", number_at v "lng", number_at v "batteryLevel" with
  | Some a, Some b, Some c => Some (reported_attributes a b c)
  | _, _, _ => None
  end.

(** A vehicle after the loop of [update] has stored its distance [d]. *)
Definition measured (d : Q) (v : value) : value :=
  match v with
  | VDict m => VDict (<["distance" := VNum d]> m)
  | _ => v
  end.

(** The key and the item [sorted] works on for a vehicle. *)
Definition keyed
    (distance : value → value → Q → Q → exn + option Q)
    (latitude longitude : Q) (v : value) : value * value :=
  match distance_to distance latitude longitude v with
  | Some d => (VNum d, measured d v)
  | None => (VNone, v)
  end.

(** Keyed items whose key is a number, a number at least [q], a number
    above [q]. *)
Definition numeric (x : value * value) : Prop := ∃ q, x.1 = VNum q.

Definition key_le (q : Q) (x : value * value) : Prop :=
  ∃ k, x.1 = VNum k ∧ (q <= k)%Q.

Definition key_lt (q : Q) (x : value * value) : Prop :=
  ∃ k, x.1 = VNum k ∧ (q < k)%Q.

(** What a reading that went through leaves in the sensor. *)
Definition reading (st : Z) (lat lng : value) (battery : Z) (s : Sensor)
  : Sensor :=
  with_attributes
    (<[ATTR_ATTRIBUTION := VStr ATTRIBUTION]>
       (<[ATTR_BATTERY_LEVEL := VNum (inject_Z battery)]>
          (<[ATTR_LONGITUDE := lng]>
             (<[ATTR_LATITUDE := lat]> (_attributes s)))))
    (with_state (Some st) s).

(** The four records the module can log. *)
Definition fetch_log (url : string) (e : exn) : LogRecord :=
  {| log_msg := "Error fetching data: %s failed with %s";
     log_args := [url; exn_str e] |}.

Definition parse_log (url : string) (e : exn) : LogRecord :=
  {| log_msg := "Error parsing data: %s failed with %s";
     log_args := [url; exn_str e] |}.

Definition empty_log : LogRecord :=
  {| log_msg := "Empty result found when expecting list of vehicles";
     log_args := [] |}.

Definition erroneous_log (key : string) : LogRecord :=
  {| log_msg := "Erroneous result found when expecting list of vehicles: %s";
     log_args := ["'" ++ key ++ "'"] |}.

(** The call a permitted [update] makes to [get_vehicles] at time [now]. *)
Definition fetch (str : Q → string)
    (network : nat → string → list (string * string) → exn + Response)
    (now : Z) (w : World) : (exn + value) * World :=
  let s := self w in
  get_vehicles str network (_api s) (_latitude s) (_longitude s) (_radius s)
    (reset now w).

(** The answer of the network to that call. *)
Definition answer (str : Q → string)
    (network : nat → string → list (string * string) → exn + Response)
    (w : World) : exn + Response :=
  let s := self w in
  network (length (sent w))
    (request_url str (_latitude s) (_longitude s) (_radius s))
    (request_headers (_api s)).

(** The five error conditions of a cycle, read off the answer of the
    network. *)
Inductive condition : Type :=
| TransportFailure
| ErrorStatus
| MalformedBody
| MissingData
| EmptyVehicleList.

Definition exhibits (c : condition) (answer : exn + Response) : bool :=
  match answer with
  | inl e =>
      match c with
      | TransportFailure => issubclass_RequestException (exn_class e)
      | _ => false
      end
  | inr response =>
      match raise_for_status response with
      | Some e =>
          match c with
          | ErrorStatus => issubclass_RequestException (exn_class e)
          | _ => false
          end
      | None =>
          match json response with
          | inl e =>
              match c with
              | MalformedBody =>
                  issubclass_RequestException (exn_class e)
                  || issubclass_ValueError (exn_class e)
              | _ => false
              end
          | inr (VDict m) =>
              match c, m !! "data" with
              | MissingData, None => true
              | EmptyVehicleList, Some (VList []) => true
              | _, _ => false
              end
          | inr _ => false
          end
      end
  end.

(** The exceptions [get_vehicles] has a handler for. *)
Definition handled (e : exn) : bool :=
  issubclass_RequestException (exn_class e)
  || issubclass_ValueError (exn_class e).

(** The three library calls of [get_vehicles] raise nothing but what
    [requests] documents: a [RequestException] or a [ValueError]. *)
Definition well_behaved (answer : exn + Response) : bool :=
  match answer with
  | inl e => handled e
  | inr response =>
      match raise_for_status response with
      | Some e => handled e
      | None =>
          match json response with
          | inl e => handled e
          | inr _ => true
          end
      end
  end.

(** What the three library calls of [get_vehicles] produce together. *)
Definition fetched (answer : exn + Response) : exn + value :=
  response ← answer;
  _ ← match raise_for_status response with
      | Some e => inl e
      | None => inr tt
      end;
  json response.

(** A fetch result [update] is written for: nothing usable (a falsy value, or
    a dictionary without ["data"] or with a falsy one), or a dictionary whose
    ["data"] is a list of vehicle records. *)
Definition supported_result
    (distance : value → value → Q → Q → exn + option Q)
    (latitude longitude : Q) (result : value) : bool :=
  negb (truthy result)
  || match result with
     | VDict m =>
         match m !! "data" with
         | None => true
         | Some (VList l) =>
             forallb (is_vehicle_record distance latitude longitude) l
         | Some d => negb (truthy d)
         end
     | _ => false
     end.

Definition is_vehicle_list
    (distance : value → value → Q → Q → exn + option Q)
    (latitude longitude : Q) (v : value) : bool :=
  match v with
  | VList l => forallb (is_vehicle_record distance latitude longitude) l
  | _ => false
  end.

(** The finite values of a binary64 [float]: a significand of 53 bits on a
    power of two within the range of the format. *)
Definition is_double (q : Q) : Prop :=
  ∃ m e : Z, (Z.abs m < 2 ^ 53)%Z ∧ (-1074 <= e <= 971)%Z
             ∧ (q == inject_Z m * pow2 e)%Q.

(** [z] is the integer nearest to [x], the even one of the two when [x] lies
    halfway. *)
Definition nearest_integer (x : Q) (z : Z) : Prop :=
  (Qabs (x - inject_Z z) <= 1 # 2)%Q
  ∧ ((Qabs (x - inject_Z z) == 1 # 2)%Q → Z.even z = true).

(** [r] is a [float] and no [float] is nearer to [q]. *)
Definition nearest_double (q r : Q) : Prop :=
  is_double r ∧ ∀ y, is_double y → (Qabs (r - q) <= Qabs (y - q))%Q.

(** [r] is [x] rounded to 5 decimal places: the [float] nearest to the
    multiple of 0.00001 nearest to [x]. *)
Definition rounded_to_5 (x r : Q) : Prop :=
  ∃ k : Z, nearest_integer (x * 100000) k ∧ nearest_double (k # 100000) r.

(** The attributes are the four entries of a reading taken from a vehicle at
    [(a, b)] with battery level [c]. *)
Definition reading_of (a b c : Q) (attributes : gmap string value) : Prop :=
  ∃ (lat lng : Q) (battery : Z),
    attributes
    = <[ATTR_ATTRIBUTION := VStr "Data provided by Tier"]>
        (<[ATTR_BATTERY_LEVEL := VNum (inject_Z battery)]>
           (<[ATTR_LONGITUDE := VNum lng]>
              (<[ATTR_LATITUDE := VNum lat]> ∅)))
    ∧ rounded_to_5 a lat ∧ rounded_to_5 b lng ∧ nearest_integer c battery.

(** The coordinates of the vehicle record are [float]s. *)
Definition double_coordinates (v : value) : Prop :=
  ∃ a b, number_at v "lat" = Some a ∧ number_at v "lng" = Some b
         ∧ is_double a ∧ is_double b.

(** The invariant of the sensor's reading. *)
Definition reading_ok (s : Sensor) : Prop :=
  (_state s = None ↔ _attributes s = ∅)
  ∧ (is_Some (_state s) →
     dom (_attributes s)
     = ({[ATTR_LATITUDE; ATTR_LONGITUDE; ATTR_BATTERY_LEVEL; ATTR_ATTRIBUTION]}
        : gset string)
     ∧ _attributes s !! ATTR_ATTRIBUTION = Some (VStr "Data provided by Tier")).

(** ** A small world to run the methods in *)

Module Example.

Definition str (q : Q) : string := "0.0".

(** A taxicab measure, a thousand meters to the degree. *)
Definition distance (a b : value) (latitude longitude : Q) : exn + option Q :=
  match a, b with
  | VNum x, VNum y =>
      inr (Some (Qred (1000 * (Qabs (x - latitude) + Qabs (y - longitude)))))
  | VNone, _ => inr None
  | _, VNone => inr None
  | _, _ => inl (Exn TypeError "must be real number")
  end.

Definition vehicle (a b c : Q) : value :=
  VDict (<["lat" := VNum a]>
           (<["lng" := VNum b]> (<["batteryLevel" := VNum c]> ∅))).

(** The network answering every request with status 200 and [body]. *)
Definition answers (body : value)
  : nat → string → list (string * string) → exn + Response :=
  fun _ _ _ => inr {| raise_for_status := None; json := inr body |}.

Definition times_out
  : nat → string → list (string * string) → exn + Response :=
  fun _ _ _ => inl (Exn Timeout "Read timed out.").

Definition sensor : Sensor :=
  init {| _api_key := "key" |} DEFAULT_NAME 0 0 DEFAULT_RADIUS.

Definition world : World :=
  {| self := sensor; logged := []; sent := []; last_update := None |}.

(** Three vehicles 120.4, 80.1 and 300.0 meters away. *)
Definition three : list value :=
  [vehicle (1204 # 10000) 0 50; vehicle 0 (801 # 10000) 77;
   vehicle (3 # 10) 0 10].

Definition data (l : list value) : value := VDict {["data" := VList l]}.

(** The world after an earlier cycle found a scooter 80 meters away. *)
Definition stale : World :=
  with_self
    (with_attributes (reported_attributes 0 (801 # 10000) 77)
       (with_state (Some 80) sensor))
    world.

(** Two vehicles, both 100 meters away. *)
Definition tied : list value :=
  [vehicle (1 # 10) 0 40; vehicle 0 (1 # 10) 90].

End Example.

(** ** The rest of the module: accessors and [setup_platform] *)

Definition ICON : string := "mdi:scooter".

(** The properties [name], [icon], [state] and [extra_state_attributes] of
    the sensor. *)
Definition name (s : Sensor) : string := _name s.
Definition icon (s : Sensor) : string := ICON.
Definition state (s : Sensor) : option Z := _state s.
Definition extra_state_attributes (s : Sensor) : gmap string value :=
  _attributes s.

(** The platform configuration as [PLATFORM_SCHEMA] validates it: the API key
    is required, the other entries are optional. *)
Record Config : Type := {
  CONF_API_KEY : string;
  CONF_NAME : option string;
  CONF_RADIUS : option Q;
  CONF_LATITUDE : option Q;
  CONF_LONGITUDE : option Q
}.

(** [hass.config], of which the module reads the location of the host. *)
Record Hass : Type := {
  hass_latitude : Q;
  hass_longitude : Q
}.

(** [TierNearestScooterApi.__init__] *)
Definition Api_init (api_key : string) : Api := {| _api_key := api_key |}.

(** [setup_platform]: the entities handed to [add_entities]. *)
Definition setup_platform (hass : Hass) (config : Config) : list Sensor :=
  let api_key := CONF_API_KEY config in
  let name := default DEFAULT_NAME (CONF_NAME config) in
  let latitude := default (hass_latitude hass) (CONF_LATITUDE config) in
  let longitude := default (hass_longitude hass) (CONF_LONGITUDE config) in
  let radius := default DEFAULT_RADIUS (CONF_RADIUS config) in
  let api := Api_init api_key in
  [init api name latitude longitude radius].

(** The world a sensor starts in: nothing logged, nothing requested, and a
    throttle that has not run. *)
Definition fresh (s : Sensor) : World :=
  {| self := s; logged := []; sent := []; last_update := None |}.

(** Two sensor objects with the same configuration, whatever they read. *)
Definition same_configuration (s s' : Sensor) : Prop :=
  _api s' = _api s ∧ _name s' = _name s ∧ _latitude s' = _latitude s
  ∧ _longitude s' = _longitude s ∧ _radius s' = _radius s.

(** What the cycle leaves when it stops after the longitude. *)
Definition partial_reading (st : Z) (lat lng : value) (s : Sensor) : Sensor :=
  with_attributes
    (<[ATTR_LONGITUDE := lng]> (<[ATTR_LATITUDE := lat]> (_attributes s)))
    (with_state (Some st) s).

(** The vehicle can be measured, though the measure may be undefined:
    [lat] and [lng] are numbers and [distance] returns. *)
Definition measure_of
    (distance : value → value → Q → Q → exn + option Q)
    (latitude longitude : Q) (v : value) : option (option Q) :=
  match v, number_at v "lat", number_at v "lng" with
  | VDict _, Some a, Some b =>
      match distance (VNum a) (VNum b) latitude longitude with
      | inr d => Some d
      | inl _ => None
      end
  | _, _, _ => None
  end.

(** A vehicle after the loop of [update] has stored [x] as its distance. *)
Definition stored (x : value) (v : value) : value :=
  match v with
  | VDict m => VDict (<["distance" := x]> m)
  | _ => v
  end.

(** The key and the item [sorted] works on for a vehicle whose measure may
    be undefined. *)
Definition keyed_any
    (distance : value → value → Q → Q → exn + option Q)
    (latitude longitude : Q) (v : value) : value * value :=
  match measure_of distance latitude longitude v with
  | Some d => (of_option d, stored (of_option d) v)
  | None => (VNone, v)
  end.

(** Keyed items whose key is a number or [None]. *)
Definition number_or_none (x : value * value) : Prop :=
  (∃ q, x.1 = VNum q) ∨ x.1 = VNone.

Definition is_TypeError (e : exn) : bool :=
  match exn_class e with
  | TypeError => true
  | _ => false
  end.

Module Example2.

(** A measure that is undefined north of 80 degrees. *)
Definition distance (a b : value) (latitude longitude : Q) : exn + option Q :=
  match a with
  | VNum x => if Qle_bool 80 x then inr None
              else Example.distance a b latitude longitude
  | _ => Example.distance a b latitude longitude
  end.

Definition config : Config := {|
  CONF_API_KEY := "secret"; CONF_NAME := None; CONF_RADIUS := None;
  CONF_LATITUDE := Some (525 # 10); CONF_LONGITUDE := Some (134 # 10) |}.

Definition hass : Hass := {| hass_latitude := 48; hass_longitude := 11 |}.

(** The library raising something [get_vehicles] has no handler for. *)
Definition breaks : nat → string → list (string * string) → exn + Response :=
  fun _ _ _ => inl (Exn TypeError "unexpected keyword argument").

(** A response whose body is not JSON. *)
Definition garbled : nat → string → list (string * string) → exn + Response :=
  fun _ _ _ =>
    inr {| raise_for_status := None;
           json := inl (Exn RequestsJSONDecodeError "Expecting value") |}.

(** A vehicle record without battery level. *)
Definition flat : value :=
  VDict (<["lat" := VNum (1 # 10)]> (<["lng" := VNum 0]> ∅)).

(** A body that reports an error instead of vehicles. *)
Definition refused : value := VDict {["message" := VStr "Forbidden"]}.

(** A vehicle record without latitude. *)
Definition adrift : value :=
  VDict (<["lng" := VNum 0]> (<["batteryLevel" := VNum 50]> ∅)).

End Example2.

Module Example3.

(** The [float] a JSON number denotes. *)
Definition parsed (q : Q) : Q := round_to_double q.

(** Three vehicles 120.4, 80.1 and 300.0 meters away, as [float]s have it. *)
Definition fleet : list value :=
  [Example.vehicle (parsed (1204 # 10000)) 0 50;
   Example.vehicle 0 (parsed (801 # 10000)) 77;
   Example.vehicle (parsed (3 # 10)) 0 10].

(** One vehicle at latitude 52.123456. *)
Definition north : list value :=
  [Example.vehicle (parsed (52123456 # 1000000)) (parsed (134 # 10)) 63].

(** A vehicle record whose battery level is the JSON number [1e999]. *)
Definition overcharged : value :=
  VDict (<["lat" := VNum (parsed (1 # 10))]>
           (<["lng" := VNum 0]> (<["batteryLevel" := VInf false]> ∅))).

End Example3.

(** * Proofs *)

Local Open Scope list_scope.

(** ** Numbers *)

Lemma Qltb_lt (a b : Q) : Qltb a b = true ↔ (a < b)%Q.
Proof. unfold Qltb, Qlt. apply Z.ltb_lt. Qed.

Lemma Qltb_ge (a b : Q) : Qltb a b = false ↔ (b <= a)%Q.
Proof. unfold Qltb, Qle. rewrite Z.ltb_ge. reflexivity. Qed.

(** [round_half_even x] is within a half of [x]. *)
Lemma round_half_even_near (x : Q) :
  (Qabs.Qabs (x - inject_Z (round_half_even x)) <= 1 # 2)%Q.
Proof.
  destruct x as [n d]. unfold round_half_even. cbn [Qnum Qden].
  pose proof (Z.div_mod n (Zpos d) ltac:(lia)) as Hdm.
  pose proof (Z.mod_pos_bound n (Zpos d) ltac:(lia)) as Hb.
  set (f := (n / Zpos d)%Z) in *. set (r := (n mod Zpos d)%Z) in *.
  apply Qabs.Qabs_Qle_condition.
  unfold Qle, Qminus, Qplus, Qopp, inject_Z. cbn.
  repeat (destruct (_ <? _)%Z eqn:?; [rewrite ?Z.ltb_lt in *|rewrite ?Z.ltb_ge in *]);
    try destruct (Z.even f); split; nia.
Qed.

(** The integer strictly within a half of [x] is [round_half_even x]. *)
Lemma round_half_even_unique (x : Q) (z : Z) :
  (Qabs.Qabs (x - inject_Z z) < 1 # 2)%Q → round_half_even x = z.
Proof.
  intros H. apply Qabs.Qabs_Qlt_condition in H.
  pose proof (round_half_even_near x) as Hn.
  apply Qabs.Qabs_Qle_condition in Hn.
  set (y := round_half_even x) in *. clearbody y.
  destruct x as [n d]. destruct H as [H1 H2]. destruct Hn as [H3 H4].
  unfold Qlt, Qle, Qminus, Qplus, Qopp, inject_Z in *. cbn in *.
  nia.
Qed.
(** ** [sorted] on numeric keys *)

Module SortedFacts.
Import Sorted.

Lemma insert_numeric (P : value * value → Prop) x l :
  numeric x → P x → Forall numeric l → Forall P l →
  ∃ s, insert x l = inr s ∧ Forall numeric s ∧ Forall P s.
Proof.
  intros [q Hq] HPx Hn HP. induction l as [|y l IH]; cbn.
  - exists [x]. repeat split; repeat constructor; [by exists q | done].
  - inversion Hn as [|? ? [k Hk] Hn']; subst.
    inversion HP as [|? ? HPy HP']; subst.
    rewrite Hk, Hq. cbn. destruct (Qltb k q).
    + destruct (IH Hn' HP') as (s & -> & Hs1 & Hs2). cbn.
      exists (y :: s). repeat split; constructor; try done. by exists k.
    + exists (x :: y :: l). repeat split; repeat constructor; try done.
      * by exists q.
      * by exists k.
Qed.

Lemma sort_numeric (P : value * value → Prop) l :
  Forall numeric l → Forall P l →
  ∃ s, sort l = inr s ∧ Forall numeric s ∧ Forall P s.
Proof.
  induction l as [|x l IH]; intros Hn HP; cbn.
  - exists []. by repeat split.
  - inversion Hn; inversion HP; subst.
    destruct IH as (s & -> & Hs1 & Hs2); [done..|]. cbn.
    by apply insert_numeric.
Qed.

(** An item whose key is below every key of the list goes in front. *)
Lemma insert_front q x l :
  x.1 = VNum q → Forall (key_le q) l → insert x l = inr (x :: l).
Proof.
  intros Hq Hl. destruct l as [|y l]; [done|]. cbn.
  inversion Hl as [|? ? (k & Hk & Hle) _]; subst.
  rewrite Hk, Hq. cbn. apply Qltb_ge in Hle. by rewrite Hle.
Qed.

(** An item goes behind a head of strictly smaller key. *)
Lemma insert_behind q k x y l :
  x.1 = VNum k → y.1 = VNum q → (q < k)%Q → Forall numeric l →
  ∃ s, insert x (y :: l) = inr (y :: s) ∧ Forall numeric s.
Proof.
  intros Hk Hq Hlt Hl. cbn. rewrite Hk, Hq. cbn.
  apply Qltb_lt in Hlt. rewrite Hlt.
  destruct (insert_numeric numeric x l) as (s & -> & Hs & _);
    [by exists k | by exists k | done | done |].
  by exists s.
Qed.

Lemma key_le_numeric q l : Forall (key_le q) l → Forall numeric l.
Proof.
  intros H. eapply Forall_impl; [exact H|]. intros x (k & Hk & _). by exists k.
Qed.

Lemma key_lt_numeric q l : Forall (key_lt q) l → Forall numeric l.
Proof.
  intros H. eapply Forall_impl; [exact H|]. intros x (k & Hk & _). by exists k.
Qed.

(** The first item of least key comes first. *)
Lemma sort_first_min q x l1 l2 :
  x.1 = VNum q → Forall (key_lt q) l1 → Forall (key_le q) l2 →
  ∃ s, sort (l1 ++ x :: l2) = inr (x :: s) ∧ Forall numeric s.
Proof.
  intros Hq H1 H2. induction l1 as [|y l1 IH]; cbn.
  - destruct (sort_numeric (key_le q) l2) as (s & -> & Hs1 & Hs2);
      [by eapply key_le_numeric | done |]. cbn.
    exists s. split; [|done]. by eapply insert_front.
  - inversion H1 as [|? ? (k & Hk & Hlt) H1']; subst.
    destruct (IH H1') as (s & -> & Hs). cbn.
    by eapply insert_behind.
Qed.

End SortedFacts.

(** ** Measuring the vehicles *)

Section Measure.

Variable distance : value → value → Q → Q → exn + option Q.
Variables latitude longitude : Q.

Local Abbreviation keyed := (keyed distance latitude longitude).

Lemma number_at_getitem v key q :
  number_at v key = Some q → getitem v key = inr (VNum q).
Proof.
  destruct v as [| | | | | | |m]; try done. cbn.
  destruct (m !! key) as [[]|]; try done. by intros [= ->].
Qed.

Lemma number_at_measured d v key :
  key ≠ "distance" → number_at (measured d v) key = number_at v key.
Proof.
  intros Hne. destruct v as [| | | | | | |m]; try done. cbn.
  by rewrite lookup_insert_ne.
Qed.

Lemma set_distance_measured v d :
  distance_to distance latitude longitude v = Some d →
  set_distance distance latitude longitude v = inr (measured d v)
  ∧ getitem (measured d v) "distance" = inr (VNum d).
Proof.
  unfold distance_to, set_distance. intros H.
  destruct (number_at v "lat") as [a|] eqn:Ha; [|done].
  destruct (number_at v "lng") as [b|] eqn:Hb; [|done].
  rewrite (number_at_getitem _ _ _ Ha), (number_at_getitem _ _ _ Hb). cbn.
  destruct (distance _ _ _ _) as [|[d'|]]; try done.
  injection H as ->. cbn.
  destruct v as [| | | | | | |m]; try done. cbn.
  by rewrite lookup_insert_eq.
Qed.

Lemma for_each_keys l :
  Forall (λ v, is_Some (distance_to distance latitude longitude v)) l →
  ∃ l',
    for_each (set_distance distance latitude longitude) l = inr l'
    ∧ Sorted.keys (λ item, getitem item "distance") l' = inr (keyed <$> l).
Proof.
  induction 1 as [|v l [d Hd] _ (l' & IH1 & IH2)]; cbn.
  - by exists [].
  - destruct (set_distance_measured v d Hd) as [-> Hget]. cbn.
    rewrite IH1. cbn. exists (measured d v :: l'). split; [done|]. cbn.
    rewrite Hget. cbn. rewrite IH2. cbn.
    unfold keyed at 2. by rewrite Hd.
Qed.

(** The scooter [update] chooses: the first vehicle of the list that no
    other vehicle is nearer than. *)
Lemma nearest_scooter_first_min l1 v l2 d :
  distance_to distance latitude longitude v = Some d →
  Forall (λ u, ∃ du, distance_to distance latitude longitude u = Some du
                     ∧ (d < du)%Q) l1 →
  Forall (λ u, ∃ du, distance_to distance latitude longitude u = Some du
                     ∧ (d <= du)%Q) l2 →
  nearest_scooter distance latitude longitude (VList (l1 ++ v :: l2))
  = inr (measured d v).
Proof.
  intros Hd H1 H2. unfold nearest_scooter, Sorted.sorted. cbn.
  destruct (for_each_keys (l1 ++ v :: l2)) as (l' & -> & Hk).
  { apply Forall_app. split; [|constructor].
    - eapply Forall_impl; [exact H1|]. intros u (du & -> & _). by eexists.
    - by eexists.
    - eapply Forall_impl; [exact H2|]. intros u (du & -> & _). by eexists. }
  cbn. rewrite Hk. cbn. rewrite fmap_app, fmap_cons.
  destruct (SortedFacts.sort_first_min d (keyed v) (keyed <$> l1) (keyed <$> l2))
    as (s & -> & _).
  - unfold keyed. by rewrite Hd.
  - apply Forall_fmap. eapply Forall_impl; [exact H1|].
    intros u (du & Hu & Hlt). exists du. unfold keyed. cbn. by rewrite Hu.
  - apply Forall_fmap. eapply Forall_impl; [exact H2|].
    intros u (du & Hu & Hle). exists du. unfold keyed. cbn. by rewrite Hu.
  - cbn. unfold keyed. by rewrite Hd.
Qed.

End Measure.

Section Runs.

Variable str : Q → string.
Variable network : nat → string → list (string * string) → exn + Response.
Variable distance : value → value → Q → Q → exn + option Q.

(** [get_vehicles], one case per outcome of its three library calls. *)
Lemma get_vehicles_run api la lo r w :
  let url := request_url str la lo r in
  get_vehicles str network api la lo r w =
  match fetched (network (length (sent w)) url (request_headers api)) with
  | inr v => (inr v, add_sent url w)
  | inl e =>
      if issubclass_RequestException (exn_class e)
      then (inr VNone, add_log (fetch_log url e) (add_sent url w))
      else if issubclass_ValueError (exn_class e)
      then (inr VNone, add_log (parse_log url e) (add_sent url w))
      else (inl e, add_sent url w)
  end.
Proof.
  cbn. unfold get_vehicles, try_except, requests_get, call_raise_for_status,
    lift, fetched, request_url, request_headers.
  unfold mbind, M_bind, result_bind. cbn.
  destruct (network _ _ _) as [e|resp].
  - destruct (issubclass_RequestException (exn_class e)); [done|].
    by destruct (issubclass_ValueError (exn_class e)).
  - destruct (raise_for_status resp) as [e|].
    + destruct (issubclass_RequestException (exn_class e)); [done|].
      by destruct (issubclass_ValueError (exn_class e)).
    + destruct (json resp) as [e|v]; [|done].
      destruct (issubclass_RequestException (exn_class e)); [done|].
      by destruct (issubclass_ValueError (exn_class e)).
Qed.

Lemma extract_vehicles_falsy result w :
  truthy result = false →
  extract_vehicles result w = (inr (VDict ∅), add_log empty_log w).
Proof. unfold extract_vehicles. by intros ->. Qed.

Lemma extract_vehicles_missing m w :
  m ≠ ∅ → m !! "data" = None →
  extract_vehicles (VDict m) w
  = (inr (VDict ∅), add_log (erroneous_log "data") w).
Proof.
  intros Hm Hd. unfold extract_vehicles, try_except, lift. cbn.
  rewrite bool_decide_eq_false_2 by done. cbn. by rewrite Hd.
Qed.

Lemma extract_vehicles_data m d w :
  m !! "data" = Some d → extract_vehicles (VDict m) w = (inr d, w).
Proof.
  intros Hd. unfold extract_vehicles, try_except, lift. cbn.
  rewrite bool_decide_eq_false_2; [cbn; by rewrite Hd|].
  intros ->. by rewrite lookup_empty in Hd.
Qed.

Lemma extract_vehicles_frame result w r w' :
  extract_vehicles result w = (r, w') →
  self w' = self w ∧ sent w' = sent w ∧ last_update w' = last_update w.
Proof.
  unfold extract_vehicles, try_except, lift.
  destruct (truthy result); cbn.
  - destruct (getitem result "data") as [e|]; [|by intros [= _ <-]].
    destruct (issubclass_KeyError (exn_class e)); by intros [= _ <-].
  - by intros [= _ <-].
Qed.

Lemma report_nearest_falsy s vehicles w :
  truthy vehicles = false → report_nearest distance s vehicles w = (inr tt, w).
Proof. unfold report_nearest. by intros ->. Qed.

Lemma report_nearest_returns s vehicles w w' :
  report_nearest distance s vehicles w = (inr tt, w') →
  w' = w
  ∨ ∃ st lat lng battery, w' = with_self (reading st lat lng battery (self w)) w.
Proof.
  unfold report_nearest. destruct (truthy vehicles); [|intros [= <-]; by left].
  unfold mbind, M_bind, lift, set_state, set_attribute.
  destruct (nearest_scooter _ _ _ _) as [|scooter]; [done|].
  destruct (getitem scooter "distance") as [|d]; [done|].
  destruct (round1 d) as [|st]; [done|].
  destruct (getitem scooter "lat") as [|lat]; [done|].
  destruct (round2 lat 5) as [|lat']; [done|].
  destruct (getitem scooter "lng") as [|lng]; [done|].
  destruct (round2 lng 5) as [|lng']; [done|].
  destruct (getitem scooter "batteryLevel") as [|battery]; [done|].
  destruct (round1 battery) as [|battery']; [done|].
  intros [= <-]. right. by exists st, lat', lng', battery'.
Qed.

Lemma report_nearest_frame s vehicles w r w' :
  report_nearest distance s vehicles w = (r, w') →
  logged w' = logged w ∧ sent w' = sent w ∧ last_update w' = last_update w.
Proof.
  unfold report_nearest. destruct (truthy vehicles); [|by intros [= _ <-]].
  unfold mbind, M_bind, lift, set_state, set_attribute.
  destruct (nearest_scooter _ _ _ _) as [|scooter]; [by intros [= _ <-]|].
  destruct (getitem scooter "distance") as [|d]; [by intros [= _ <-]|].
  destruct (round1 d) as [|st]; [by intros [= _ <-]|].
  destruct (getitem scooter "lat") as [|lat]; [by intros [= _ <-]|].
  destruct (round2 lat 5) as [|lat']; [by intros [= _ <-]|].
  destruct (getitem scooter "lng") as [|lng]; [by intros [= _ <-]|].
  destruct (round2 lng 5) as [|lng']; [by intros [= _ <-]|].
  destruct (getitem scooter "batteryLevel") as [|battery]; [by intros [= _ <-]|].
  destruct (round1 battery) as [|battery']; by intros [= _ <-].
Qed.

(** The reading [update] takes from the scooter it chose. *)
Lemma report_nearest_scooter s vehicles w v d a b c :
  truthy vehicles = true →
  nearest_scooter distance (_latitude s) (_longitude s) vehicles
  = inr (measured d v) →
  distance_to distance (_latitude s) (_longitude s) v = Some d →
  number_at v "lat" = Some a → number_at v "lng" = Some b →
  number_at v "batteryLevel" = Some c →
  report_nearest distance s vehicles w
  = (inr tt,
     with_self
       (reading (round_half_even d) (VNum (round_ndigits a 5))
          (VNum (round_ndigits b 5)) (round_half_even c) (self w)) w).
Proof.
  intros Ht Hn Hd Ha Hb Hc. unfold report_nearest. rewrite Ht.
  unfold mbind, M_bind, lift, set_state, set_attribute. rewrite Hn.
  destruct (set_distance_measured distance _ _ v d Hd) as [_ ->]. cbn.
  rewrite (number_at_getitem (measured d v) "lat" a)
    by (by rewrite number_at_measured).
  rewrite (number_at_getitem (measured d v) "lng" b)
    by (by rewrite number_at_measured).
  rewrite (number_at_getitem (measured d v) "batteryLevel" c)
    by (by rewrite number_at_measured).
  reflexivity.
Qed.

End Runs.

(** ** One cycle of [update] *)

Section Cycle.

Variable str : Q → string.
Variable network : nat → string → list (string * string) → exn + Response.
Variable distance : value → value → Q → Q → exn + option Q.

Local Abbreviation get_vehicles := (get_vehicles str network).
Local Abbreviation update := (update str network distance).
Local Abbreviation update_body := (update_body str network distance).

Local Abbreviation fetch := (fetch str network).
Local Abbreviation answer := (answer str network).

Lemma update_permitted now w :
  permitted now w = true → update now w = update_body (stamp now w).
Proof.
  unfold permitted, update, Throttle. destruct (last_update w); [|done].
  by intros ->%negb_true_iff.
Qed.

Lemma update_suppressed now w :
  permitted now w = false → update now w = (inr tt, w).
Proof.
  unfold permitted, update, Throttle. destruct (last_update w); [|done].
  by intros ->%negb_false_iff.
Qed.

Lemma update_body_run now w :
  update_body (stamp now w) =
  match fetch now w with
  | (inl e, w1) => (inl e, w1)
  | (inr result, w1) =>
      match extract_vehicles result w1 with
      | (inl e, w2) => (inl e, w2)
      | (inr vehicles, w2) =>
          report_nearest distance (self (reset now w)) vehicles w2
      end
  end.
Proof. reflexivity. Qed.

Lemma fetch_run now w :
  let s := self w in
  let url := request_url str (_latitude s) (_longitude s) (_radius s) in
  fetch now w =
  match fetched (answer w) with
  | inr v => (inr v, add_sent url (reset now w))
  | inl e =>
      if issubclass_RequestException (exn_class e)
      then (inr VNone, add_log (fetch_log url e) (add_sent url (reset now w)))
      else if issubclass_ValueError (exn_class e)
      then (inr VNone, add_log (parse_log url e) (add_sent url (reset now w)))
      else (inl e, add_sent url (reset now w))
  end.
Proof. cbn. unfold fetch. by rewrite get_vehicles_run. Qed.

(** The fetch leaves the sensor as reset, and sends one request. *)
Lemma fetch_frame now w r w1 :
  fetch now w = (r, w1) →
  self w1 = self (reset now w)
  ∧ sent w1 = (sent w ++ [request_url str (_latitude (self w))
                             (_longitude (self w)) (_radius (self w))])%list
  ∧ last_update w1 = Some now.
Proof.
  rewrite fetch_run. destruct (fetched _) as [e|v].
  - destruct (issubclass_RequestException _); [by intros [= _ <-]|].
    destruct (issubclass_ValueError _); by intros [= _ <-].
  - by intros [= _ <-].
Qed.

(** A fetch that returns something else than [None] has logged nothing. *)
Lemma fetch_not_none now w result w1 :
  fetch now w = (inr result, w1) → result ≠ VNone →
  fetched (answer w) = inr result ∧ logged w1 = logged w.
Proof.
  rewrite fetch_run. destruct (fetched _) as [e|v].
  - destruct (issubclass_RequestException _); [by intros [= <- _]|].
    destruct (issubclass_ValueError _); [by intros [= <- _]|done].
  - by intros [= <- <-].
Qed.

(** A cycle whose fetch brings nothing truthy: the "empty result" error is
    logged and the reading is unknown. *)
Lemma update_falsy now w result w1 :
  permitted now w = true → fetch now w = (inr result, w1) →
  truthy result = false →
  update now w = (inr tt, add_log empty_log w1).
Proof.
  intros Hp Hf Ht. rewrite update_permitted, update_body_run, Hf by done.
  rewrite extract_vehicles_falsy by done. by apply report_nearest_falsy.
Qed.

(** A cycle whose result has no ["data"]. *)
Lemma update_missing now w m w1 :
  permitted now w = true → fetch now w = (inr (VDict m), w1) →
  m ≠ ∅ → m !! "data" = None →
  update now w = (inr tt, add_log (erroneous_log "data") w1).
Proof.
  intros Hp Hf Hm Hd. rewrite update_permitted, update_body_run, Hf by done.
  rewrite extract_vehicles_missing by done. by apply report_nearest_falsy.
Qed.

(** A cycle whose result has a ["data"] entry goes on with it. *)
Lemma update_data now w m d w1 :
  permitted now w = true → fetch now w = (inr (VDict m), w1) →
  m !! "data" = Some d →
  update now w = report_nearest distance (self (reset now w)) d w1.
Proof.
  intros Hp Hf Hd. rewrite update_permitted, update_body_run, Hf by done.
  by rewrite (extract_vehicles_data m d).
Qed.

(** A cycle that chooses the vehicle [v]. *)
Lemma update_first_min now w m l1 v l2 w1 d a b c :
  let s := self w in
  permitted now w = true → fetch now w = (inr (VDict m), w1) →
  m !! "data" = Some (VList (l1 ++ v :: l2)) →
  distance_to distance (_latitude s) (_longitude s) v = Some d →
  Forall (λ u, ∃ du, distance_to distance (_latitude s) (_longitude s) u
                     = Some du ∧ (d < du)%Q) l1 →
  Forall (λ u, ∃ du, distance_to distance (_latitude s) (_longitude s) u
                     = Some du ∧ (d <= du)%Q) l2 →
  number_at v "lat" = Some a → number_at v "lng" = Some b →
  number_at v "batteryLevel" = Some c →
  ∃ w', update now w = (inr tt, w')
        ∧ _state (self w') = Some (round_half_even d)
        ∧ _attributes (self w') = reported_attributes a b c
        ∧ logged w' = logged w.
Proof.
  intros s Hp Hf Hm Hd H1 H2 Ha Hb Hc.
  destruct (fetch_frame _ _ _ _ Hf) as (Hs & _ & _).
  destruct (fetch_not_none _ _ _ _ Hf) as [_ Hl]; [done|].
  rewrite (update_data now w m _ w1) by done.
  erewrite report_nearest_scooter; [| |by apply nearest_scooter_first_min|..];
    try done; [|by destruct l1].
  eexists. split; [done|]. cbn. by rewrite Hs, Hl.
Qed.

End Cycle.

(** A list of measured vehicles has a first vehicle that none is nearer
    than. *)
Lemma first_min_exists
    (distance : value → value → Q → Q → exn + option Q)
    (latitude longitude : Q) (l : list value) :
  l ≠ [] →
  Forall (λ v, is_Some (distance_to distance latitude longitude v)) l →
  ∃ l1 v l2 d,
    l = l1 ++ v :: l2
    ∧ distance_to distance latitude longitude v = Some d
    ∧ Forall (λ u, ∃ du, distance_to distance latitude longitude u = Some du
                         ∧ (d < du)%Q) l1
    ∧ Forall (λ u, ∃ du, distance_to distance latitude longitude u = Some du
                         ∧ (d <= du)%Q) l2.
Proof.
  intros Hne Hl. induction Hl as [|u l [du Hu] Hl IH]; [done|].
  destruct l as [|u' l'].
  { exists [], u, [], du. by repeat split. }
  destruct IH as (l1 & v & l2 & d & Heq & Hv & H1 & H2); [done|].
  destruct (Qlt_le_dec d du) as [Hlt|Hle].
  - exists (u :: l1), v, l2, d. rewrite Heq. split_and!; try done.
    constructor; [by exists du|done].
  - exists [], u, (u' :: l'), du. rewrite Heq. split_and!; try done.
    apply Forall_app. split; [|constructor].
    + eapply Forall_impl; [exact H1|]. intros x (dx & Hx & Hlt).
      exists dx. split; [done|]. apply Qlt_le_weak in Hlt.
      by eapply Qle_trans.
    + by exists d.
    + eapply Forall_impl; [exact H2|]. intros x (dx & Hx & Hle').
      exists dx. split; [done|]. by eapply Qle_trans.
Qed.

Section CycleFrame.

Variable str : Q → string.
Variable network : nat → string → list (string * string) → exn + Response.
Variable distance : value → value → Q → Q → exn + option Q.

Local Abbreviation update := (update str network distance).
Local Abbreviation fetch := (fetch str network).

(** A permitted cycle sends one request and stamps the time, however it
    ends. *)
Lemma update_frame now w r w' :
  permitted now w = true → update now w = (r, w') →
  sent w' = sent w ++ [request_url str (_latitude (self w))
                         (_longitude (self w)) (_radius (self w))]
  ∧ last_update w' = Some now.
Proof.
  intros Hp. rewrite update_permitted, update_body_run by done.
  destruct (fetch now w) as [[e|result] w1] eqn:Hf;
    destruct (fetch_frame _ _ _ _ _ _ Hf) as (_ & Hs1 & Hl1).
  { by intros [= _ <-]. }
  destruct (extract_vehicles result w1) as [[e|vehicles] w2] eqn:He;
    destruct (extract_vehicles_frame _ _ _ _ He) as (_ & Hs2 & Hl2).
  { intros [= _ <-]. by rewrite Hs2, Hl2. }
  intros (_ & Hs3 & Hl3)%report_nearest_frame.
  by rewrite Hs3, Hl3, Hs2, Hl2.
Qed.

(** A permitted cycle that returns leaves the reading unknown, or a full
    reading of some vehicle. *)
Lemma returned_reading now w w' :
  permitted now w = true → update now w = (inr tt, w') →
  self w' = self (reset now w)
  ∨ ∃ st lat lng battery,
      self w' = reading st lat lng battery (self (reset now w)).
Proof.
  intros Hp. rewrite update_permitted, update_body_run by done.
  destruct (fetch now w) as [[e|result] w1] eqn:Hf; [done|].
  destruct (fetch_frame _ _ _ _ _ _ Hf) as (Hs1 & _ & _).
  destruct (extract_vehicles result w1) as [[e|vehicles] w2] eqn:He; [done|].
  destruct (extract_vehicles_frame _ _ _ _ He) as (Hs2 & _ & _).
  intros [->|(st & lat & lng & battery & ->)]%report_nearest_returns.
  - left. by rewrite Hs2.
  - right. exists st, lat, lng, battery. cbn. by rewrite Hs2, Hs1.
Qed.

End CycleFrame.

Section Handled.

Variable str : Q → string.
Variable network : nat → string → list (string * string) → exn + Response.

(** [get_vehicles] returns when the library raises only what it handles. *)
Lemma get_vehicles_handled (api : Api) (latitude longitude radius : Q)
    (w : World) :
  let url := request_url str latitude longitude radius in
  let reply := network (length (sent w)) url (request_headers api) in
  well_behaved reply = true →
  ∃ v w', get_vehicles str network api latitude longitude radius w = (inr v, w')
          ∧ self w' = self w
          ∧ sent w' = (sent w ++ [url])%list
          ∧ match fetched reply with
            | inr body => v = body ∧ logged w' = logged w
            | inl e =>
                v = VNone
                ∧ ∃ record, logged w' = (logged w ++ [record])%list
            end.
Proof.
  intros url reply Hwb. rewrite get_vehicles_run. fold url. fold reply.
  assert (∀ e, fetched reply = inl e → handled e = true) as Hh.
  { unfold fetched, well_behaved in *. unfold mbind, result_bind.
    destruct reply as [e|response]; [by intros ? [= <-]|].
    destruct (raise_for_status response); [by intros ? [= <-]|].
    destruct (json response); [by intros ? [= <-]|done]. }
  destruct (fetched reply) as [e|body]; [|by eexists _, _].
  specialize (Hh e eq_refl). unfold handled in Hh.
  destruct (issubclass_RequestException (exn_class e)).
  - eexists _, _. split_and!; try done. by eexists.
  - cbn in Hh. rewrite Hh. eexists _, _. split_and!; try done. by eexists.
Qed.

End Handled.
(** The cycle consults the network for one answer only. *)
Lemma update_same_answer (str : Q → string)
    (network network' : nat → string → list (string * string) → exn + Response)
    (distance : value → value → Q → Q → exn + option Q)
    (now : Z) (w : World) :
  answer str network' w = answer str network w →
  update str network' distance now w = update str network distance now w.
Proof.
  intros Ha. destruct (permitted now w) eqn:Hp.
  - rewrite !update_permitted by done. rewrite !update_body_run.
    rewrite !fetch_run. cbv zeta. by rewrite Ha.
  - by rewrite !update_suppressed.
Qed.

(** What the library raises outside the handled classes, the cycle raises. *)
Lemma update_unhandled (str : Q → string)
    (network : nat → string → list (string * string) → exn + Response)
    (distance : value → value → Q → Q → exn + option Q)
    (now : Z) (w : World) (e : exn) :
  permitted now w = true →
  fetched (answer str network w) = inl e → handled e = false →
  (update str network distance now w).1 = inl e.
Proof.
  intros Hp Hf He. rewrite update_permitted by done.
  rewrite update_body_run, fetch_run. cbv zeta. rewrite Hf.
  unfold handled in He. apply orb_false_iff in He as [-> ->]. reflexivity.
Qed.


(** ** Rounding to the nearest binary64 value *)

Lemma pow2_pos e : (0 < pow2 e)%Q.
Proof. apply Qpower_0_lt. reflexivity. Qed.

Lemma pow2_add a b : (pow2 (a + b) == pow2 a * pow2 b)%Q.
Proof. apply Qpower_plus. discriminate. Qed.

Lemma pow2_le a b : (a <= b)%Z → (pow2 a <= pow2 b)%Q.
Proof. intros H. apply Qpower_le_compat_l; [done|]. discriminate. Qed.

Lemma pow2_lt a b : (a < b)%Z → (pow2 a < pow2 b)%Q.
Proof. intros H. apply Qpower_lt_compat_l; [done|]. reflexivity. Qed.

Lemma pow2_Z e : (0 <= e)%Z → (pow2 e == inject_Z (2 ^ e))%Q.
Proof. intros H. unfold pow2. by rewrite Zpower_Qpower. Qed.

Lemma pow2_succ e : (pow2 (e + 1) == 2 * pow2 e)%Q.
Proof. rewrite pow2_add. unfold pow2 at 2. cbn. ring. Qed.

(** The integer [round_half_even] returns is a nearest one. *)
Lemma round_half_even_nearest (x : Q) (M : Z) :
  (Qabs (x - inject_Z (round_half_even x)) <= Qabs (x - inject_Z M))%Q.
Proof.
  pose proof (round_half_even_near x) as Hn.
  set (m := round_half_even x) in *. clearbody m.
  destruct (Z.eq_dec m M) as [->|Hne]; [apply Qle_refl|].
  apply Qabs_Qle_condition in Hn.
  eapply Qle_trans; [apply Qabs_Qle_condition; exact Hn|].
  assert ((inject_Z M <= inject_Z m - 1)%Q ∨ (inject_Z m + 1 <= inject_Z M)%Q)
    as Hd.
  { assert (M <= m - 1 ∨ m + 1 <= M)%Z as [H|H] by lia; [left|right];
      unfold Qle, Qminus, Qplus, Qopp, inject_Z; cbn; lia. }
  apply Qabs_case; intros; destruct Hd; destruct Hn; lra.
Qed.

Lemma pow2_sub a b :
  (0 <= a)%Z → (0 <= b)%Z →
  (pow2 (a - b) == inject_Z (2 ^ a) / inject_Z (2 ^ b))%Q.
Proof.
  intros Ha Hb. replace (a - b)%Z with (a + - b)%Z by lia.
  rewrite pow2_add. unfold pow2 at 2. rewrite Qpower_opp.
  fold (pow2 b). by rewrite !pow2_Z.
Qed.

Lemma inject_Z_pos z : (0 < z)%Z → (0 < inject_Z z)%Q.
Proof. intros H. unfold Qlt. cbn [Qnum Qden inject_Z]. lia. Qed.

Lemma Qabs_frac q : Qabs q = Z.abs (Qnum q) # Qden q.
Proof. by destruct q. Qed.

Lemma binade_spec q :
  ¬ (q == 0)%Q →
  (pow2 (binade q) <= Qabs q)%Q ∧ (Qabs q < pow2 (binade q + 1))%Q.
Proof.
  intros Hq.
  assert (0 < Z.abs (Qnum q))%Z as Hn.
  { destruct q as [n d]. unfold Qeq in Hq. cbn in *. lia. }
  set (n := Z.abs (Qnum q)) in *. set (d := Zpos (Qden q)).
  assert (0 < d)%Z as Hd by done.
  pose proof (Z.log2_spec n Hn) as [Hn1 Hn2].
  pose proof (Z.log2_spec d Hd) as [Hd1 Hd2].
  pose proof (Z.log2_nonneg n) as Hln. pose proof (Z.log2_nonneg d) as Hld.
  set (ln := Z.log2 n) in *. set (ld := Z.log2 d) in *.
  assert (0 < 2 ^ ln)%Z as Hpn by (apply Z.pow_pos_nonneg; lia).
  assert (0 < 2 ^ ld)%Z as Hpd by (apply Z.pow_pos_nonneg; lia).
  rewrite Z.pow_succ_r in Hn2, Hd2 by lia.
  assert (Qabs q < pow2 (ln - ld + 1))%Q as HA.
  { replace (ln - ld + 1)%Z with ((ln + 1) - ld)%Z by lia.
    rewrite pow2_sub by lia. apply Qlt_shift_div_l.
    - by apply inject_Z_pos.
    - rewrite Qabs_frac. fold n. rewrite Z.pow_add_r by lia.
      unfold Qlt, Qmult. cbn [Qnum Qden inject_Z]. fold d.
      change (2 ^ 1)%Z with 2%Z. nia. }
  assert (pow2 (ln - ld - 1) < Qabs q)%Q as HB.
  { replace (ln - ld - 1)%Z with (ln - (ld + 1))%Z by lia.
    rewrite pow2_sub by lia. apply Qlt_shift_div_r.
    - apply inject_Z_pos. apply Z.pow_pos_nonneg; lia.
    - rewrite Qabs_frac. fold n. rewrite Z.pow_add_r by lia.
      unfold Qlt, Qmult. cbn [Qnum Qden inject_Z]. fold d.
      change (2 ^ 1)%Z with 2%Z. nia. }
  unfold binade. fold n d ln ld.
  destruct (Qle_bool (pow2 (ln - ld)) (Qabs q)) eqn:Hb.
  - apply Qle_bool_iff in Hb. by split.
  - split; [by apply Qlt_le_weak|].
    replace (ln - ld - 1 + 1)%Z with (ln - ld)%Z by lia.
    apply Qnot_le_lt. intros H. apply Qle_bool_iff in H. congruence.
Qed.

Lemma Qabs_scale (a b p : Q) :
  (0 < p)%Q → (Qabs (a * p - b * p) == Qabs (a - b) * p)%Q.
Proof.
  intros Hp.
  assert ((a * p - b * p == (a - b) * p)%Q) as -> by ring.
  rewrite Qabs_Qmult, (Qabs_pos p); [reflexivity|]. by apply Qlt_le_weak.
Qed.

Lemma Qabs_scale_le (a b c p : Q) :
  (0 < p)%Q → (Qabs (a - c) <= Qabs (b - c))%Q →
  (Qabs (a * p - c * p) <= Qabs (b * p - c * p))%Q.
Proof.
  intros Hp H. rewrite !Qabs_scale by done.
  apply Qmult_le_compat_r; [done|]. by apply Qlt_le_weak.
Qed.

Lemma Qdiv_mult_cancel (q p : Q) : (0 < p)%Q → (q / p * p == q)%Q.
Proof. intros Hp. field. intros H. rewrite H in Hp. by apply Qlt_irrefl in Hp. Qed.

Lemma inject_Z_bound (m : Z) (x : Q) (B : Z) :
  (Qabs (x - inject_Z m) <= 1 # 2)%Q → (Qabs x < inject_Z B)%Q →
  (Z.abs m <= B)%Z.
Proof.
  intros H1 H2. apply Qabs_Qle_condition in H1. apply Qabs_Qlt_condition in H2.
  destruct H1 as [H1 H1'], H2 as [H2 H2'].
  assert (inject_Z m < inject_Z (B + 1))%Q as Hu.
  { rewrite inject_Z_plus. change (inject_Z 1) with 1%Q. lra. }
  assert (inject_Z (- B - 1) < inject_Z m)%Q as Hl.
  { unfold Zminus. rewrite inject_Z_plus, inject_Z_opp.
    change (inject_Z (- (1))) with (- (1))%Q. lra. }
  rewrite <- Zlt_Qlt in Hu, Hl. lia.
Qed.

Section Nearest.

Variable q : Q.
Hypothesis Hq0 : ¬ (q == 0)%Q.
Hypothesis Hqmax : (Qabs q < pow2 1023)%Q.

Let bexp := binade q.
Let uexp := Z.max (bexp - 52) (-1074).
Let ulp := pow2 uexp.
Let scaled := (q / ulp)%Q.
Let mant := round_half_even scaled.

Lemma nearest_p_pos : (0 < ulp)%Q.
Proof. apply pow2_pos. Qed.

Lemma nearest_xp : (scaled * ulp == q)%Q.
Proof. apply Qdiv_mult_cancel, nearest_p_pos. Qed.

Lemma nearest_e_bounds :
  (pow2 bexp <= Qabs q)%Q ∧ (Qabs q < pow2 (bexp + 1))%Q ∧ (bexp <= 1022)%Z.
Proof.
  destruct (binade_spec q Hq0) as [H1 H2]. fold bexp in H1, H2.
  split_and!; [done..|].
  assert (bexp < 1023)%Z; [|lia].
  apply (Qpower_lt_compat_l_inv 2); [|reflexivity].
  eapply Qle_lt_trans; [exact H1|exact Hqmax].
Qed.

Lemma nearest_u_bounds : (-1074 <= uexp <= 970)%Z ∧ (bexp + 1 <= uexp + 53)%Z.
Proof. destruct nearest_e_bounds as (_ & _ & He). unfold uexp. lia. Qed.

Lemma nearest_round_eq :
  (round_to_double q == inject_Z mant * ulp)%Q.
Proof.
  unfold round_to_double.
  assert (Qis_zero q = false) as ->.
  { unfold Qis_zero. apply Z.eqb_neq. intros H. apply Hq0.
    unfold Qeq. rewrite H. reflexivity. }
  by rewrite Qred_correct.
Qed.

Lemma nearest_x_bound : (Qabs scaled < inject_Z (2 ^ 53))%Q.
Proof.
  destruct nearest_e_bounds as (_ & H2 & _).
  destruct nearest_u_bounds as [_ Hu].
  assert (Qabs q < inject_Z (2 ^ 53) * ulp)%Q as H.
  { eapply Qlt_le_trans; [exact H2|].
    eapply Qle_trans; [apply (pow2_le _ (53 + uexp)); lia|].
    rewrite pow2_add, (pow2_Z 53) by lia. apply Qle_refl. }
  pose proof nearest_p_pos as Hp. pose proof nearest_xp as Hx.
  rewrite <- Hx, Qabs_Qmult, (Qabs_pos ulp) in H by (by apply Qlt_le_weak).
  by apply Qmult_lt_r in H.
Qed.

Lemma nearest_m_bound : (Z.abs mant <= 2 ^ 53)%Z.
Proof.
  eapply inject_Z_bound; [apply round_half_even_near|apply nearest_x_bound].
Qed.

Lemma nearest_is_double : is_double (round_to_double q).
Proof.
  pose proof nearest_m_bound as Hm. destruct nearest_u_bounds as [Hu _].
  destruct (Z.eq_dec (Z.abs mant) (2 ^ 53)) as [Heq|Hne].
  - exists (mant / 2)%Z, (uexp + 1)%Z. split_and!; [|lia|lia|].
    + assert (mant = 2 ^ 53 ∨ mant = - 2 ^ 53)%Z as [->| ->] by lia; by vm_compute.
    + rewrite nearest_round_eq, pow2_succ. fold ulp.
      assert (inject_Z mant == inject_Z (mant / 2) * 2)%Q as Hhalf.
      { assert (mant = 2 ^ 53 ∨ mant = - 2 ^ 53)%Z as [->| ->] by lia;
          by vm_compute. }
      rewrite Hhalf. ring.
  - exists mant, uexp. split_and!; [lia|lia|lia|]. apply nearest_round_eq.
Qed.

Lemma nearest_multiple (M : Z) :
  (Qabs (round_to_double q - q) <= Qabs (inject_Z M * ulp - q))%Q.
Proof.
  rewrite nearest_round_eq.
  assert (Qabs (inject_Z mant * ulp - scaled * ulp) <= Qabs (inject_Z M * ulp - scaled * ulp))%Q as H.
  { apply Qabs_scale_le; [apply nearest_p_pos|].
    rewrite (Qabs_Qminus (inject_Z mant)), (Qabs_Qminus (inject_Z M)).
    apply round_half_even_nearest. }
  by rewrite nearest_xp in H.
Qed.

Lemma nearest_optimal (y : Q) :
  is_double y → (Qabs (round_to_double q - q) <= Qabs (y - q))%Q.
Proof.
  intros (my & ey & Hmy & Hey & Hy).
  destruct (Z_le_gt_dec uexp ey) as [Hle|Hgt].
  - (* [y] is a multiple of the unit *)
    assert (y == inject_Z (my * 2 ^ (ey - uexp)) * ulp)%Q as ->.
    { rewrite Hy, inject_Z_mult, <- (pow2_Z (ey - uexp)) by lia.
      rewrite <- Qmult_assoc. unfold ulp. rewrite <- pow2_add.
      by replace (ey - uexp + uexp)%Z with ey by lia. }
    apply nearest_multiple.
  - (* [y] lies below the binade of [q] *)
    assert (uexp = bexp - 52)%Z as Hu by (unfold uexp in *; lia).
    destruct nearest_e_bounds as (He1 & _ & _).
    assert (Qabs y < pow2 bexp)%Q as Hylt.
    { rewrite Hy, Qabs_Qmult, (Qabs_pos (pow2 ey))
        by (apply Qlt_le_weak, pow2_pos).
      assert (pow2 bexp == inject_Z (2 ^ 53) * pow2 (bexp - 53))%Q as ->.
      { rewrite <- (pow2_Z 53), <- pow2_add by lia.
        by replace (53 + (bexp - 53))%Z with bexp by lia. }
      apply Qlt_le_trans with (inject_Z (2 ^ 53) * pow2 ey)%Q.
      - apply Qmult_lt_r; [apply pow2_pos|].
        assert (Qabs (inject_Z my) = inject_Z (Z.abs my)) as -> by done.
        by rewrite Zlt_Qlt in Hmy.
      - apply Qmult_le_l; [by apply inject_Z_pos|]. apply pow2_le. lia. }
    assert (pow2 bexp == inject_Z (2 ^ 52) * ulp)%Q as Hpe.
    { unfold ulp. rewrite <- (pow2_Z 52), <- pow2_add by lia.
      by replace (52 + uexp)%Z with bexp by lia. }
    pose proof (nearest_multiple (2 ^ 52)) as Hp1.
    pose proof (nearest_multiple (- 2 ^ 52)) as Hp2.
    rewrite inject_Z_opp in Hp2.
    assert ((- inject_Z (2 ^ 52) * ulp == - pow2 bexp)%Q) as Hpe'
      by (rewrite Hpe; ring).
    rewrite <- Hpe in Hp1. rewrite Hpe' in Hp2.
    set (r := round_to_double q) in *. set (P := pow2 bexp) in *.
    clearbody r P. clear Hy Hpe Hpe'.
    apply Qabs_Qlt_condition in Hylt.
    set (A := Qabs (r - q)) in *. clearbody A.
    revert He1 Hp1 Hp2.
    apply (Qabs_case q); intros Hqs He1;
      apply (Qabs_case (P - q)); intros HPq Hp1;
      apply (Qabs_case (- P - q)); intros HPq' Hp2;
      apply (Qabs_case (y - q)); intros Hyq; lra.
Qed.

End Nearest.

(** [round_to_double] returns a nearest [float], below the top binade. *)
Lemma round_to_double_nearest (q : Q) :
  (Qabs q < pow2 1023)%Q → nearest_double q (round_to_double q).
Proof.
  intros Hmax. destruct (Qeq_dec q 0) as [H0|H0].
  - assert (round_to_double q = 0%Q) as ->.
    { unfold round_to_double, Qis_zero. unfold Qeq in H0. cbn in H0.
      rewrite Z.mul_1_r in H0. by rewrite H0. }
    split.
    + exists 0%Z, 0%Z. by split_and!.
    + intros y _. rewrite H0. apply Qabs_nonneg.
  - split; [by apply nearest_is_double | by apply nearest_optimal].
Qed.

Lemma is_double_wd (a b : Q) : (a == b)%Q → is_double a → is_double b.
Proof.
  intros Hab (m & e & Hm & He & Ha). exists m, e.
  split_and!; [done|lia|lia|].
  eapply Qeq_trans; [apply Qeq_sym; exact Hab | exact Ha].
Qed.

Lemma round_half_even_tie (x : Q) :
  (Qabs (x - inject_Z (round_half_even x)) == 1 # 2)%Q →
  Z.even (round_half_even x) = true.
Proof.
  destruct x as [n d]. unfold round_half_even. cbn [Qnum Qden].
  pose proof (Z.div_mod n (Zpos d) ltac:(lia)) as Hdm.
  pose proof (Z.mod_pos_bound n (Zpos d) ltac:(lia)) as Hb.
  set (f := (n / Zpos d)%Z) in *. set (r := (n mod Zpos d)%Z) in *.
  intros H.
  assert (∀ z : Z, (Qabs ((n # d) - inject_Z z) == 1 # 2)%Q →
                   (2 * Z.abs (n - z * Zpos d) = Zpos d)%Z) as Habs.
  { intros z Hz. unfold Qminus, Qplus, Qopp, inject_Z, Qabs, Qeq in Hz.
    cbn in Hz. lia. }
  destruct (2 * r <? Zpos d)%Z eqn:H1;
    [apply Z.ltb_lt in H1; apply Habs in H; nia|apply Z.ltb_ge in H1].
  destruct (Zpos d <? 2 * r)%Z eqn:H2;
    [apply Z.ltb_lt in H2; apply Habs in H; nia|apply Z.ltb_ge in H2].
  destruct (Z.even f) eqn:Hf; [done|].
  rewrite Z.add_1_r, Z.even_succ, <- Z.negb_even, Hf. done.
Qed.

Lemma round_half_even_nearest_integer (x : Q) :
  nearest_integer x (round_half_even x).
Proof. split; [apply round_half_even_near | apply round_half_even_tie]. Qed.

(** The nearest integer is the one strictly within a half. *)
Lemma nearest_integer_unique (x : Q) (z z' : Z) :
  nearest_integer x z → (Qabs (x - inject_Z z') < 1 # 2)%Q → z = z'.
Proof.
  intros [Hz _] Hz'.
  apply Qabs_Qle_condition in Hz. apply Qabs_Qlt_condition in Hz'.
  destruct Hz as [H1 H2], Hz' as [H3 H4].
  assert (inject_Z z < inject_Z (z' + 1))%Q as Hu
    by (rewrite inject_Z_plus; change (inject_Z 1) with 1%Q; lra).
  assert (inject_Z z' < inject_Z (z + 1))%Q as Hl
    by (rewrite inject_Z_plus; change (inject_Z 1) with 1%Q; lra).
  rewrite <- Zlt_Qlt in Hu, Hl. lia.
Qed.

Lemma is_integer_inject (q : Q) :
  is_integer q = true → (q == inject_Z (Qnum q / Zpos (Qden q)))%Q.
Proof.
  unfold is_integer. intros H%Z.eqb_eq. destruct q as [n d]. cbn in *.
  pose proof (Z.div_mod n (Zpos d) ltac:(lia)) as Hdm.
  unfold Qeq, inject_Z. cbn. lia.
Qed.

Lemma inject_is_integer (q : Q) (z : Z) :
  (q == inject_Z z)%Q → is_integer q = true.
Proof.
  unfold is_integer, Qeq, inject_Z. destruct q as [n d]. cbn. intros H.
  apply Z.eqb_eq. rewrite Z.mul_1_r in H. rewrite H. apply Z.mod_mul. lia.
Qed.

(** A [float] that is not a whole number is below [2 ** 52]. *)
Lemma is_double_fraction_bound (a : Q) :
  is_double a → is_integer a = false → (Qabs a < inject_Z (2 ^ 52))%Q.
Proof.
  intros (m & e & Hm & He & Ha) Hint.
  destruct (Z_le_gt_dec 0 e) as [Hpos|Hneg].
  - rewrite (inject_is_integer a (m * 2 ^ e)) in Hint; [done|].
    by rewrite Ha, inject_Z_mult, pow2_Z.
  - rewrite Ha, Qabs_Qmult, (Qabs_pos (pow2 e)) by apply Qlt_le_weak, pow2_pos.
    assert (Qabs (inject_Z m) = inject_Z (Z.abs m)) as -> by done.
    apply Qlt_le_trans with (inject_Z (2 ^ 53) * pow2 e)%Q.
    + apply Qmult_lt_r; [apply pow2_pos|]. by rewrite <- Zlt_Qlt.
    + apply Qle_trans with (inject_Z (2 ^ 53) * pow2 (-1))%Q.
      * apply Qmult_le_l; [by apply inject_Z_pos|]. apply pow2_le. lia.
      * by vm_compute.
Qed.

(** What [round(x, 5)] returns for a [float]. *)
Lemma round_ndigits_rounded (a : Q) :
  is_double a → rounded_to_5 a (round_ndigits a 5).
Proof.
  intros Ha. exists (round_half_even (a * 100000)).
  split; [apply round_half_even_nearest_integer|].
  unfold round_ndigits. destruct (is_integer a) eqn:Hint.
  - apply is_integer_inject in Hint.
    set (z := (Qnum a / Zpos (Qden a))%Z) in *.
    assert (round_half_even (a * 100000) = (z * 100000)%Z) as ->.
    { apply round_half_even_unique.
      assert ((a * 100000 - inject_Z (z * 100000) == 0)%Q) as ->; [|done].
      rewrite inject_Z_mult, Hint.
      change (inject_Z 100000) with 100000%Q. ring. }
    assert ((z * 100000 # 100000) == a)%Q as Hq.
    { rewrite Hint. unfold Qeq, inject_Z. cbn. lia. }
    split.
    + apply (is_double_wd a); [by rewrite Qred_correct|done].
    + intros y _. rewrite Qred_correct, Hq.
      assert ((a - a == 0)%Q) as -> by ring. apply Qabs_nonneg.
  - change (decimal a 5) with (round_half_even (a * 100000) # 100000).
    apply round_to_double_nearest.
    pose proof (is_double_fraction_bound a Ha Hint) as Hb.
    pose proof (round_half_even_near (a * 100000)) as Hn.
    set (k := round_half_even (a * 100000)) in *. clearbody k.
    assert ((k # 100000) == inject_Z k / 100000)%Q as ->.
    { unfold Qeq, Qdiv, Qmult, Qinv, inject_Z. cbn. lia. }
    apply Qlt_le_trans with (inject_Z (2 ^ 52) + 1)%Q; [|by vm_compute].
    apply Qabs_Qle_condition in Hn. apply Qabs_Qlt_condition in Hb.
    set (X := inject_Z (2 ^ 52)) in *. clearbody X.
    set (K := inject_Z k) in *. clearbody K.
    destruct Hn, Hb. apply Qabs_Qlt_condition.
    unfold Qdiv. change (/ 100000)%Q with (1 # 100000)%Q. split; lra.
Qed.

Lemma is_double_round_to_double (q : Q) :
  (Qabs q < pow2 1023)%Q → is_double (round_to_double q).
Proof. intros H. by destruct (round_to_double_nearest q H). Qed.

(** The attributes [update] sets are a reading of the vehicle. *)
Lemma reported_reading (a b c : Q) :
  is_double a → is_double b → reading_of a b c (reported_attributes a b c).
Proof.
  intros Ha Hb.
  exists (round_ndigits a 5), (round_ndigits b 5), (round_half_even c).
  split_and!; [done|by apply round_ndigits_rounded..|].
  apply round_half_even_nearest_integer.
Qed.

(** The [float] written 52.123456 rounds to the [float] written 52.12346. *)
Lemma rounded_example (a lat : Q) :
  nearest_double (52123456 # 1000000) a → rounded_to_5 a lat →
  nearest_double (5212346 # 100000) lat.
Proof.
  intros [_ Hnear] (k & Hk & Hlat).
  assert (Qabs (a - (52123456 # 1000000)) <= 1 # 1000000000000)%Q as Ha.
  { eapply Qle_trans.
    - apply (Hnear (round_to_double (52123456 # 1000000))).
      apply is_double_round_to_double. by vm_compute.
    - by vm_compute. }
  assert (k = 5212346%Z) as ->; [|done].
  apply (nearest_integer_unique (a * 100000)); [done|].
  apply Qabs_Qle_condition in Ha. destruct Ha.
  change (inject_Z 5212346) with (5212346 # 1)%Q.
  apply Qabs_Qlt_condition. split; lra.
Qed.

(** ** Properties of the sensor *)

Section Properties.

Variable str : Q → string.
Variable network : nat → string → list (string * string) → exn + Response.
Variable distance : value → value → Q → Q → exn + option Q.

Local Abbreviation update := (update str network distance).
Local Abbreviation fetch := (fetch str network).
Local Abbreviation answer := (answer str network).

(** C2. In a permitted cycle whose fetch returns [None], or a result whose
    vehicle list is empty, [update] returns with the state unknown and no
    attributes, whatever reading the sensor held before. *)
Theorem update_empty_or_null_unknown (now : Z) (w : World)
    (result : value) (w1 : World) :
  permitted now w = true →
  fetch now w = (inr result, w1) →
  result = VNone
  ∨ (∃ m, result = VDict m ∧ m !! "data" = Some (VList [])) →
  ∃ w', update now w = (inr tt, w')
        ∧ _state (self w') = None
        ∧ _attributes (self w') = ∅.
Proof.
  intros Hp Hf Hr.
  destruct (fetch_frame _ _ _ _ _ _ Hf) as (Hs & _ & _).
  destruct Hr as [-> | (m & -> & Hd)].
  - rewrite (update_falsy _ _ _ now w VNone w1) by done.
    eexists. split; [done|]. cbn. by rewrite Hs.
  - rewrite (update_data _ _ _ now w m (VList []) w1) by done.
    rewrite report_nearest_falsy by done.
    eexists. split; [done|]. by rewrite Hs.
Qed.

(** C9. The test on the fetch result is its truth value. Any falsy result,
    [None] or not, makes the cycle add the "empty result" record to the log
    and leave the reading unknown, and the empty dictionary and the empty
    list are falsy; when the result is not [None] that record is the only
    one of the cycle. A result whose ["data"] is the empty list leaves the
    reading unknown too, and the log as it was. *)
Theorem update_tests_truthiness (now : Z) (w : World) :
  permitted now w = true →
  (∀ result w1,
     fetch now w = (inr result, w1) → truthy result = false →
     update now w = (inr tt, add_log empty_log w1)
     ∧ logged (update now w).2
       = logged w1
         ++ [{| log_msg := "Empty result found when expecting list of vehicles";
                log_args := [] |}]
     ∧ (result ≠ VNone → logged w1 = logged w)
     ∧ _state (self (update now w).2) = None
     ∧ _attributes (self (update now w).2) = ∅)
  ∧ truthy VNone = false ∧ truthy (VDict ∅) = false ∧ truthy (VList []) = false
  ∧ (∀ m w1,
       fetch now w = (inr (VDict m), w1) → m !! "data" = Some (VList []) →
       update now w = (inr tt, w1)
       ∧ logged (update now w).2 = logged w
       ∧ _state (self (update now w).2) = None
       ∧ _attributes (self (update now w).2) = ∅).
Proof.
  intros Hp. split; [|split; [done|split; [done|split; [done|]]]].
  - intros result w1 Hf Ht.
    destruct (fetch_frame _ _ _ _ _ _ Hf) as (Hs & _ & _).
    rewrite (update_falsy _ _ _ now w result w1) by done.
    split_and!; [done|done| |cbn; by rewrite Hs|cbn; by rewrite Hs].
    intros Hne. by destruct (fetch_not_none _ _ _ _ _ _ Hf Hne).
  - intros m w1 Hf Hd.
    destruct (fetch_frame _ _ _ _ _ _ Hf) as (Hs & _ & _).
    destruct (fetch_not_none _ _ _ _ _ _ Hf) as [_ Hl]; [done|].
    rewrite (update_data _ _ _ now w m (VList []) w1) by done.
    rewrite report_nearest_falsy by done. cbn. by rewrite Hs.
Qed.

(** C6, as the code has it. A cycle that meets a transport failure, an error
    status, a malformed body or a JSON object without ["data"] (the empty
    object included) returns with the reading unknown after one request and
    with at least one record added to the log; a cycle that meets an empty
    vehicle list returns with the reading unknown after one request too, but
    logs nothing. *)
Theorem update_error_conditions (now : Z) (w : World) (c : condition) :
  permitted now w = true →
  exhibits c (answer w) = true →
  ∃ w', update now w = (inr tt, w')
        ∧ _state (self w') = None
        ∧ _attributes (self w') = ∅
        ∧ length (sent w') = S (length (sent w))
        ∧ (c ≠ EmptyVehicleList →
           ∃ record records, logged w' = (logged w ++ record :: records)%list)
        ∧ (c = EmptyVehicleList → logged w' = logged w).
Proof.
  intros Hp Hc.
  pose proof (fetch_run str network now w) as Hf. cbn in Hf.
  assert (∀ r w1, fetch now w = (r, w1) →
                  _state (self w1) = None ∧ _attributes (self w1) = ∅
                  ∧ length (sent w1) = S (length (sent w))) as Hframe.
  { intros r w1 H. destruct (fetch_frame _ _ _ _ _ _ H) as (-> & -> & _).
    rewrite length_app. cbn. repeat split; lia. }
  unfold exhibits, fetched in *. unfold mbind, result_bind in Hf.
  destruct (answer w) as [e|response].
  - destruct c; try done. rewrite Hc in Hf.
    rewrite (update_falsy _ _ _ now w VNone _ Hp Hf) by done.
    destruct (Hframe _ _ Hf) as (? & ? & ?).
    eexists. split_and!; [done..| |done].
    intros _. cbn. rewrite <- ?app_assoc. by do 2 eexists.
  - destruct (raise_for_status response) as [e|].
    + destruct c; try done. rewrite Hc in Hf.
      rewrite (update_falsy _ _ _ now w VNone _ Hp Hf) by done.
      destruct (Hframe _ _ Hf) as (? & ? & ?).
      eexists. split_and!; [done..| |done].
      intros _. cbn. rewrite <- ?app_assoc. by do 2 eexists.
    + destruct (json response) as [e|body].
      * destruct c; try done. apply orb_true_iff in Hc.
        assert (∃ record, fetch now w
                  = (inr VNone,
                     add_log record
                       (add_sent (request_url str (_latitude (self w))
                                    (_longitude (self w)) (_radius (self w)))
                          (reset now w)))) as [record Hf'].
        { destruct (issubclass_RequestException (exn_class e)); [by eexists|].
          destruct Hc as [|Hc]; [done|]. rewrite Hc in Hf. by eexists. }
        rewrite (update_falsy _ _ _ now w VNone _ Hp Hf') by done.
        destruct (Hframe _ _ Hf') as (? & ? & ?).
        eexists. split_and!; [done..| |done].
        intros _. cbn. rewrite <- ?app_assoc. by do 2 eexists.
      * destruct body as [| | | | | | |m]; try done.
        destruct (Hframe _ _ Hf) as (? & ? & ?).
        destruct (m !! "data") as [d|] eqn:Hd.
        -- destruct c; try done. destruct d as [| | | | | |[|]|]; try done.
           rewrite (update_data _ _ _ now w m (VList []) _ Hp Hf Hd).
           rewrite report_nearest_falsy by done.
           eexists. by split_and!.
        -- destruct c; try done. destruct (decide (m = ∅)) as [->|Hm].
           ++ rewrite (update_falsy _ _ _ now w (VDict ∅) _ Hp Hf) by done.
              eexists. split_and!; [done..| |done].
              intros _. cbn. rewrite <- ?app_assoc. by do 2 eexists.
           ++ rewrite (update_missing _ _ _ now w m _ Hp Hf) by done.
              eexists. split_and!; [done..| |done].
              intros _. cbn. rewrite <- ?app_assoc. by do 2 eexists.
Qed.

(** C5, as the code has it. [get_vehicles] sends one request and leaves the
    sensor alone. It returns the parsed body of the response, whatever JSON
    value that is, with nothing logged; or [None], with exactly one record
    logged, when one of its library calls raised a [RequestException] or a
    [ValueError]. It raises only what the library raised outside these two
    classes. *)
Theorem get_vehicles_returns (api : Api) (latitude longitude radius : Q)
    (w : World) :
  let url := request_url str latitude longitude radius in
  let reply := network (length (sent w)) url [("x-api-key", _api_key api)] in
  let out := get_vehicles str network api latitude longitude radius w in
  self out.2 = self w
  ∧ sent out.2 = (sent w ++ [url])%list
  ∧ match fetched reply with
    | inr body => out.1 = inr body ∧ logged out.2 = logged w
    | inl e =>
        if handled e
        then out.1 = inr VNone
             ∧ ∃ record, logged out.2 = (logged w ++ [record])%list
                         ∧ log_args record = [url; exn_str e]
        else out.1 = inl e ∧ logged out.2 = logged w
    end.
Proof.
  intros url reply out. subst out. rewrite get_vehicles_run. fold url.
  change (network _ _ _) with reply.
  destruct (fetched reply) as [e|body]; [|done].
  unfold handled.
  destruct (issubclass_RequestException (exn_class e)); cbn.
  - split_and!; try done. by eexists.
  - destruct (issubclass_ValueError (exn_class e)); cbn; [|done].
    split_and!; try done. by eexists.
Qed.

(** C7, as the code has it. [update] returns, at any time, when the library
    calls raise nothing but a [RequestException] or a [ValueError] and the
    fetched result is one the method is written for: a falsy value, a
    dictionary without ["data"] or with a falsy one, or a dictionary whose
    ["data"] is a list of vehicle records, with finite numbers for [lat],
    [lng] and [batteryLevel] and a distance that is a number. A failed
    fetch then leaves the reading unknown and the log longer. *)
Theorem update_returns (now : Z) (w : World) :
  let s := self w in
  well_behaved (answer w) = true →
  (∀ result, fetched (answer w) = inr result →
             supported_result distance (_latitude s) (_longitude s) result
             = true) →
  ∃ w', update now w = (inr tt, w')
        ∧ (permitted now w = true →
           ∀ e, fetched (answer w) = inl e →
                _state (self w') = None ∧ _attributes (self w') = ∅
                ∧ ∃ record records,
                    logged w' = (logged w ++ record :: records)%list).
Proof.
  intros s Hwb Hsup.
  destruct (permitted now w) eqn:Hp;
    [|rewrite update_suppressed by done; by eexists].
  destruct (get_vehicles_handled str network (_api s) (_latitude s) (_longitude s)
              (_radius s) (reset now w) Hwb) as (v & w1 & Hf & Hs & _ & Hv).
  change (get_vehicles _ _ _ _ _ _ _) with (fetch now w) in Hf.
  change (network _ _ _) with (answer w) in Hv.
  destruct (fetched (answer w)) as [e|body] eqn:Hfetched.
  - destruct Hv as [-> [record Hl]].
    rewrite (update_falsy _ _ _ now w VNone w1) by done.
    eexists. split; [done|]. intros _ ? _. cbn. rewrite Hs, Hl. cbn.
    split_and!; try done. rewrite <- app_assoc. by do 2 eexists.
  - destruct Hv as [<- Hl]. specialize (Hsup v eq_refl).
    cut (∃ w', update now w = (inr tt, w')).
    { intros [w' ->]. by exists w'. }
    destruct (truthy v) eqn:Ht;
      [|rewrite (update_falsy _ _ _ now w v w1) by done; by eexists].
    unfold supported_result in Hsup. rewrite Ht in Hsup. cbn in Hsup.
    destruct v as [| | | | | | |m]; try done.
    destruct (m !! "data") as [d|] eqn:Hd.
    + rewrite (update_data _ _ _ now w m d w1) by done.
      destruct (truthy d) eqn:Htd;
        [|rewrite report_nearest_falsy by done; by eexists].
      destruct d as [| | | | | |l|]; try done.
      assert (∀ x, x ∈ l →
                   is_vehicle_record distance (_latitude s) (_longitude s) x
                   = true) as Hall.
      { intros x Hx. apply (proj1 (forallb_forall _ _) Hsup).
        by apply list_elem_of_In. }
      clear Hsup. rename Hall into Hsup.
      destruct (first_min_exists distance (_latitude s) (_longitude s) l)
        as (l1 & u & l2 & d & -> & Hu & H1 & H2).
      { by destruct l. }
      { apply Forall_forall. intros x Hx. specialize (Hsup x Hx).
        unfold is_vehicle_record in Hsup.
        destruct (distance_to _ _ _ x); [by eexists|done]. }
      assert (is_vehicle_record distance (_latitude s) (_longitude s) u
              = true) as Hrec by (apply Hsup; set_solver).
      unfold is_vehicle_record in Hrec. rewrite Hu in Hrec.
      destruct (number_at u "batteryLevel") as [c|] eqn:Hc; [|done].
      pose proof Hu as Hu'. unfold distance_to in Hu'.
      destruct (number_at u "lat") as [a|] eqn:Ha; [|done].
      destruct (number_at u "lng") as [b|] eqn:Hb; [|done].
      erewrite report_nearest_scooter;
        [by eexists|done|by apply nearest_scooter_first_min|done..].
    + cbn in Ht. apply negb_true_iff, bool_decide_eq_false in Ht.
      rewrite (update_missing _ _ _ now w m w1) by done. by eexists.
Qed.

(** C10. A new sensor has an unknown state and no attributes; and a call of
    [update] that returns keeps the reading well formed: the state is unknown
    exactly when there are no attributes, and a known state comes with the
    four attributes latitude, longitude, battery level and attribution, the
    last one being "Data provided by Tier". *)
Theorem reading_invariant :
  (∀ api name latitude longitude radius,
     reading_ok (init api name latitude longitude radius))
  ∧ (∀ now w w',
       reading_ok (self w) → update now w = (inr tt, w') →
       reading_ok (self w')).
Proof.
  split.
  - intros. split; [done|]. by intros [? [=]].
  - intros now w w' Hok Hu. destruct (permitted now w) eqn:Hp.
    + destruct (returned_reading _ _ _ _ _ _ Hp Hu)
        as [->|(st & lat & lng & battery & ->)].
      * split; [done|]. by intros [? [=]].
      * split.
        -- split; [done|]. intros H. cbn in H.
           by apply insert_non_empty in H.
        -- intros _. cbn. split; [|by rewrite lookup_insert_eq].
           rewrite !dom_insert_L, dom_empty_L. set_solver.
    + rewrite update_suppressed in Hu by done. by injection Hu as <-.
Qed.

(** C4. Of two calls of [update], the second less than ten minutes after a
    first that the throttle let through, only the first sends a request; the
    second returns at once and changes nothing. *)
Theorem update_throttled (t1 t2 : Z) (w : World) :
  permitted t1 w = true →
  (t1 <= t2 < t1 + MIN_TIME_BETWEEN_UPDATES)%Z →
  let w1 := (update t1 w).2 in
  length (sent w1) = S (length (sent w))
  ∧ update t2 w1 = (inr tt, w1).
Proof.
  intros Hp Ht w1. destruct (update t1 w) as [r w1'] eqn:Hu. subst w1. cbn.
  destruct (update_frame _ _ _ _ _ _ _ Hp Hu) as [Hs Hl].
  split.
  - rewrite Hs, length_app. cbn. lia.
  - apply update_suppressed. unfold permitted. rewrite Hl.
    apply negb_false_iff, Z.ltb_lt. lia.
Qed.

(** C3. When the fetched list is [l1 ++ v :: l2], every vehicle of [l1]
    being strictly farther than [v] and every vehicle of [l2] as far as [v]
    or farther, the cycle reports [v]: of the vehicles at the least distance,
    the first of the list. *)
Theorem update_first_of_ties (now : Z) (w : World) (m : gmap string value)
    (l1 l2 : list value) (v : value) (w1 : World) (d a b c : Q) :
  let s := self w in
  permitted now w = true →
  fetch now w = (inr (VDict m), w1) →
  m !! "data" = Some (VList (l1 ++ v :: l2)) →
  distance_to distance (_latitude s) (_longitude s) v = Some d →
  Forall (λ u, ∃ du, distance_to distance (_latitude s) (_longitude s) u
                     = Some du ∧ (d < du)%Q) l1 →
  Forall (λ u, ∃ du, distance_to distance (_latitude s) (_longitude s) u
                     = Some du ∧ (d <= du)%Q) l2 →
  number_at v "lat" = Some a → number_at v "lng" = Some b →
  number_at v "batteryLevel" = Some c →
  ∃ w', update now w = (inr tt, w')
        ∧ _state (self w') = Some (round_half_even d)
        ∧ _attributes (self w') = reported_attributes a b c.
Proof.
  intros s Hp Hf Hm Hd H1 H2 Ha Hb Hc.
  destruct (update_first_min str network distance now w m l1 v l2 w1 d a b c)
    as (w' & Hu & Hst & Hat & _); try done.
  by exists w'.
Qed.

(** C1. When the fetch brings a non-empty list of vehicle records with
    [float] coordinates, the cycle returns with the state set to the integer
    nearest to the distance of a vehicle that no vehicle of the list is
    nearer than, and with the attributes of that vehicle: its latitude and
    longitude rounded to 5 decimal places, its battery level rounded to the
    nearest integer, and the attribution. For three vehicles 120.4, 80.1 and
    300.0 meters away (to the millimeter) the state is 80 and the attributes
    are those of the second. *)
Theorem update_reports_nearest (now : Z) (w : World) (m : gmap string value)
    (l : list value) (w1 : World) :
  let s := self w in
  let measure := distance_to distance (_latitude s) (_longitude s) in
  permitted now w = true →
  fetch now w = (inr (VDict m), w1) →
  m !! "data" = Some (VList l) → l ≠ [] →
  forallb (is_vehicle_record distance (_latitude s) (_longitude s)) l = true →
  Forall double_coordinates l →
  (∃ v d a b c st,
     v ∈ l ∧ measure v = Some d
     ∧ Forall (λ u, ∃ du, measure u = Some du ∧ (d <= du)%Q) l
     ∧ number_at v "lat" = Some a ∧ number_at v "lng" = Some b
     ∧ number_at v "batteryLevel" = Some c
     ∧ (update now w).1 = inr tt
     ∧ _state (self (update now w).2) = Some st
     ∧ nearest_integer d st
     ∧ reading_of a b c (_attributes (self (update now w).2)))
  ∧ (∀ v1 v2 v3 d1 d2 d3 a b c,
       l = [v1; v2; v3] →
       measure v1 = Some d1 → measure v2 = Some d2 → measure v3 = Some d3 →
       (Qabs (d1 - (1204 # 10)) <= 1 # 1000)%Q →
       (Qabs (d2 - (801 # 10)) <= 1 # 1000)%Q →
       (Qabs (d3 - 300) <= 1 # 1000)%Q →
       number_at v2 "lat" = Some a → number_at v2 "lng" = Some b →
       number_at v2 "batteryLevel" = Some c →
       (update now w).1 = inr tt
       ∧ _state (self (update now w).2) = Some 80%Z
       ∧ reading_of a b c (_attributes (self (update now w).2))).
Proof.
  intros s measure Hp Hf Hm Hne Hall Hdbl. subst measure.
  assert (∀ v a b, v ∈ l → number_at v "lat" = Some a →
                   number_at v "lng" = Some b → is_double a ∧ is_double b)
    as Hcoord.
  { intros v a b Hv Ha Hb.
    destruct (proj1 (Forall_forall _ _) Hdbl v Hv)
      as (a' & b' & Ha' & Hb' & Hda & Hdb).
    rewrite Ha in Ha'. rewrite Hb in Hb'.
    injection Ha' as <-. injection Hb' as <-. done. }
  split.
  - assert (∀ x, x ∈ l →
                 is_vehicle_record distance (_latitude s) (_longitude s) x
                 = true) as Hrec.
    { intros x Hx. apply (proj1 (forallb_forall _ _) Hall).
      by apply list_elem_of_In. }
    destruct (first_min_exists distance (_latitude s) (_longitude s) l)
      as (l1 & v & l2 & d & El & Hv & H1 & H2); [done| |].
    { apply Forall_forall. intros x Hx. specialize (Hrec x Hx).
      unfold is_vehicle_record in Hrec.
      destruct (distance_to _ _ _ x); [by eexists|done]. }
    assert (v ∈ l) as Hin by (rewrite El; apply list_elem_of_In, in_elt).
    pose proof (Hrec v Hin) as Hvr.
    unfold is_vehicle_record in Hvr. rewrite Hv in Hvr.
    destruct (number_at v "batteryLevel") as [c|] eqn:Hc; [|done].
    pose proof Hv as Hv'. unfold distance_to in Hv'.
    destruct (number_at v "lat") as [a|] eqn:Ha; [|done].
    destruct (number_at v "lng") as [b|] eqn:Hb; [|done].
    destruct (Hcoord v a b Hin Ha Hb) as [Hda Hdb].
    rewrite El in Hm.
    destruct (update_first_min str network distance now w m l1 v l2 w1 d a b c)
      as (w' & Hu & Hst & Hat & _); try done.
    exists v, d, a, b, c, (round_half_even d). rewrite Hu. cbn [fst snd].
    split_and!; try done.
    + rewrite El. apply Forall_app. split; [|constructor; [|done]].
      * eapply Forall_impl; [exact H1|]. intros x (dx & Hx & Hlt).
        exists dx. split; [done|]. by apply Qlt_le_weak.
      * exists d. split; [done|]. apply Qle_refl.
    + apply round_half_even_nearest_integer.
    + rewrite Hat. by apply reported_reading.
  - intros v1 v2 v3 d1 d2 d3 a b c El Hd1 Hd2 Hd3 E1 E2 E3 Ha Hb Hc.
    destruct (Hcoord v2 a b) as [Hda Hdb];
      [rewrite El; apply list_elem_of_In; right; by left|done..|].
    rewrite El in Hm.
    apply Qabs_Qle_condition in E1, E2, E3.
    destruct E1, E2, E3.
    destruct (update_first_min str network distance now w m [v1] v2 [v3]
                w1 d2 a b c) as (w' & Hu & Hst & Hat & _); try done.
    + constructor; [|done]. exists d1. split; [done|]. lra.
    + constructor; [|done]. exists d3. split; [done|]. lra.
    + rewrite Hu. cbn [fst snd]. split_and!; [done| |].
      * rewrite Hst. f_equal. apply round_half_even_unique.
        change (inject_Z 80) with (80 # 1)%Q.
        apply Qabs_Qlt_condition. split; lra.
      * rewrite Hat. by apply reported_reading.
Qed.

(** C8. The attributes of a cycle that reports the vehicle [v], whose
    coordinates are [float]s, hold the latitude and the longitude of [v]
    rounded to 5 decimal places, each the [float] nearest to the multiple of
    0.00001 nearest to the coordinate, and its battery level rounded to the
    nearest integer, a value halfway going to the even neighbour; the
    latitude written 52.123456 is reported as the one written 52.12346. *)
Theorem update_rounds_reading (now : Z) (w : World) (m : gmap string value)
    (l1 l2 : list value) (v : value) (w1 : World) (d a b c : Q) :
  let s := self w in
  permitted now w = true →
  fetch now w = (inr (VDict m), w1) →
  m !! "data" = Some (VList (l1 ++ v :: l2)) →
  distance_to distance (_latitude s) (_longitude s) v = Some d →
  Forall (λ u, ∃ du, distance_to distance (_latitude s) (_longitude s) u
                     = Some du ∧ (d < du)%Q) l1 →
  Forall (λ u, ∃ du, distance_to distance (_latitude s) (_longitude s) u
                     = Some du ∧ (d <= du)%Q) l2 →
  number_at v "lat" = Some a → number_at v "lng" = Some b →
  number_at v "batteryLevel" = Some c →
  is_double a → is_double b →
  ∃ lat lng battery,
    (update now w).1 = inr tt
    ∧ _attributes (self (update now w).2) !! ATTR_LATITUDE = Some (VNum lat)
    ∧ _attributes (self (update now w).2) !! ATTR_LONGITUDE
      = Some (VNum lng)
    ∧ _attributes (self (update now w).2) !! ATTR_BATTERY_LEVEL
      = Some (VNum (inject_Z battery))
    ∧ rounded_to_5 a lat
    ∧ rounded_to_5 b lng
    ∧ nearest_integer c battery
    ∧ (nearest_double (52123456 # 1000000) a →
       nearest_double (5212346 # 100000) lat).
Proof.
  intros s Hp Hf Hm Hd H1 H2 Ha Hb Hc Hda Hdb.
  destruct (update_first_min str network distance now w m l1 v l2 w1 d a b c)
    as (w' & Hu & _ & Hat & _); try done.
  exists (round_ndigits a 5), (round_ndigits b 5), (round_half_even c).
  rewrite Hu. cbn [fst snd]. rewrite Hat.
  pose proof (round_ndigits_rounded a Hda) as Hra.
  split_and!; try done.
  - by apply round_ndigits_rounded.
  - apply round_half_even_nearest_integer.
  - intros E. by apply (rounded_example a).
Qed.

End Properties.

(** ** Instances and counterexamples *)

Lemma is_double_0 : is_double 0.
Proof. exists 0%Z, 0%Z. by vm_compute. Qed.

Lemma is_double_parsed (q : Q) :
  (Qabs q < pow2 1023)%Q → is_double (Example3.parsed q).
Proof. apply is_double_round_to_double. Qed.

Lemma update_reports_nearest_witness :
  let out :=
    update Example.str (Example.answers (Example.data Example3.fleet))
      Example.distance 0 Example.world in
  out.1 = inr tt
  ∧ _state (self out.2) = Some 80%Z
  ∧ reading_of 0 (Example3.parsed (801 # 10000)) 77 (_attributes (self out.2)).
Proof.
  destruct (update_reports_nearest Example.str
              (Example.answers (Example.data Example3.fleet)) Example.distance
              0 Example.world {["data" := VList Example3.fleet]}
              Example3.fleet
              (fetch Example.str
                 (Example.answers (Example.data Example3.fleet)) 0
                 Example.world).2)
    as [_ H].
  - vm_compute; reflexivity.
  - vm_compute; reflexivity.
  - vm_compute; reflexivity.
  - discriminate.
  - vm_compute; reflexivity.
  - repeat constructor.
    + exists (Example3.parsed (1204 # 10000)), 0%Q.
      split_and!; [vm_compute; reflexivity..| |];
        [by apply is_double_parsed; vm_compute | apply is_double_0].
    + exists 0%Q, (Example3.parsed (801 # 10000)).
      split_and!; [vm_compute; reflexivity..| |];
        [apply is_double_0 | by apply is_double_parsed; vm_compute].
    + exists (Example3.parsed (3 # 10)), 0%Q.
      split_and!; [vm_compute; reflexivity..| |];
        [by apply is_double_parsed; vm_compute | apply is_double_0].
  - eapply H.
    + reflexivity.
    + vm_compute; reflexivity.
    + vm_compute; reflexivity.
    + vm_compute; reflexivity.
    + vm_compute; discriminate.
    + vm_compute; discriminate.
    + vm_compute; discriminate.
    + vm_compute; reflexivity.
    + vm_compute; reflexivity.
    + vm_compute; reflexivity.
Defined.

Lemma update_empty_or_null_unknown_witness :
  ∃ w', update Example.str (Example.answers (Example.data [])) Example.distance
          0 Example.stale = (inr tt, w')
        ∧ _state (self w') = None
        ∧ _attributes (self w') = ∅.
Proof.
  eapply (update_empty_or_null_unknown Example.str
            (Example.answers (Example.data [])) Example.distance
            0 Example.stale (Example.data [])).
  - reflexivity.
  - reflexivity.
  - right. eexists. split; reflexivity.
Defined.

Lemma update_first_of_ties_witness :
  ∃ w', update Example.str (Example.answers (Example.data Example.tied))
          Example.distance 0 Example.world = (inr tt, w')
        ∧ _state (self w') = Some 100%Z
        ∧ _attributes (self w') = reported_attributes (1 # 10) 0 40.
Proof.
  eapply (update_first_of_ties Example.str
            (Example.answers (Example.data Example.tied)) Example.distance
            0 Example.world _ [] [Example.vehicle 0 (1 # 10) 90]
            (Example.vehicle (1 # 10) 0 40) _ 100 (1 # 10) 0 40).
  - reflexivity.
  - reflexivity.
  - reflexivity.
  - reflexivity.
  - constructor.
  - constructor; [|constructor]. exists 100%Q. split; [reflexivity|].
    vm_compute. discriminate.
  - reflexivity.
  - reflexivity.
  - reflexivity.
Defined.

Lemma update_throttled_witness :
  let network := Example.answers (Example.data Example.three) in
  let w1 := (update Example.str network Example.distance 0 Example.world).2 in
  length (sent w1) = 1%nat
  ∧ update Example.str network Example.distance 599 w1 = (inr tt, w1).
Proof.
  apply (update_throttled Example.str
           (Example.answers (Example.data Example.three)) Example.distance
           0 599 Example.world).
  - reflexivity.
  - unfold MIN_TIME_BETWEEN_UPDATES. lia.
Defined.

(** C5 as stated fails in both its parts. A response that reports an error
    in a JSON object is returned as it is: not [None], and no list of vehicle
    records, nor does it hold one. And an exception of the library that is
    neither a [RequestException] nor a [ValueError] is raised to the
    caller. *)
Lemma get_vehicles_returns_any_body :
  let s := Example.sensor in
  let call network :=
    (get_vehicles Example.str network (_api s) (_latitude s) (_longitude s)
       (_radius s) Example.world).1 in
  (call (Example.answers Example2.refused) = inr Example2.refused
   ∧ Example2.refused ≠ VNone
   ∧ is_vehicle_list Example.distance (_latitude s) (_longitude s)
       Example2.refused = false
   ∧ getitem Example2.refused "data" = inl (Exn KeyError "'data'"))
  ∧ call Example2.breaks
    = inl (Exn TypeError "unexpected keyword argument").
Proof. vm_compute. split_and!; [reflexivity|discriminate|reflexivity..]. Qed.

(** C6 as stated fails for the empty vehicle list: the cycle logs nothing.
    And of the responses without a [data] field only the JSON objects are
    handled: a JSON array makes the cycle raise. *)
Lemma empty_vehicle_list_not_logged :
  (let network := Example.answers (Example.data []) in
   exhibits EmptyVehicleList (answer Example.str network Example.world) = true
   ∧ permitted 0 Example.world = true
   ∧ logged (update Example.str network Example.distance 0 Example.world).2
     = logged Example.world)
  ∧ (update Example.str (Example.answers (VList [VNum 1])) Example.distance
       0 Example.world).1
    = inl (Exn TypeError "list indices must be integers or slices, not str").
Proof. vm_compute. split_and!; reflexivity. Qed.

Lemma update_error_conditions_witness :
  ∃ w', update Example.str Example.times_out Example.distance 0 Example.stale
        = (inr tt, w')
        ∧ _state (self w') = None
        ∧ _attributes (self w') = ∅
        ∧ length (sent w') = S (length (sent Example.stale))
        ∧ (TransportFailure ≠ EmptyVehicleList →
           ∃ record records,
             logged w' = (logged Example.stale ++ record :: records)%list)
        ∧ (TransportFailure = EmptyVehicleList →
           logged w' = logged Example.stale).
Proof.
  apply (update_error_conditions Example.str Example.times_out
           Example.distance 0 Example.stale TransportFailure);
    reflexivity.
Defined.

(** C7 as stated fails: [update] raises what the library raised outside the
    two handled classes, and it raises on a body that is a JSON array, on a
    vehicle record without latitude, on a battery level that is not finite
    and on a distance that is [None]. *)
Lemma update_can_raise :
  let run network distance :=
    (update Example.str network distance 0 Example.world).1 in
  run Example2.breaks Example.distance
  = inl (Exn TypeError "unexpected keyword argument")
  ∧ run (Example.answers (VList [VNum 1])) Example.distance
    = inl (Exn TypeError "list indices must be integers or slices, not str")
  ∧ run (Example.answers (Example.data [Example2.adrift])) Example.distance
    = inl (Exn KeyError "'lat'")
  ∧ run (Example.answers (Example.data [Example3.overcharged]))
      Example.distance
    = inl (Exn OverflowError "cannot convert float infinity to integer")
  ∧ run (Example.answers (Example.data [Example.vehicle 85 0 50]))
      Example2.distance
    = inl (Exn TypeError
             "type NoneType doesn't define __round__ method").
Proof. vm_compute. split_and!; reflexivity. Qed.

Lemma update_returns_witness :
  ∃ w', update Example.str (Example.answers (Example.data Example.three))
          Example.distance 0 Example.world = (inr tt, w').
Proof.
  destruct (update_returns Example.str
              (Example.answers (Example.data Example.three))
              Example.distance 0 Example.world eq_refl) as (w' & H & _).
  - intros result [= <-]. reflexivity.
  - by exists w'.
Defined.

(** [round] as Python computes it on [float]s: the latitude written
    52.123455 is a [float] just below the tie and goes down, 2.675 likewise,
    and the exact ties 0.5 and 1.5 go to the even neighbour. *)
Lemma round_ndigits_examples :
  Example3.parsed (52123455 # 1000000)
  = (7335724141101963 # 140737488355328)%Q
  ∧ round_ndigits (Example3.parsed (52123455 # 1000000)) 5
    = Example3.parsed (5212345 # 100000)
  ∧ round_ndigits (Example3.parsed (52123456 # 1000000)) 5
    = Example3.parsed (5212346 # 100000)
  ∧ round_ndigits (Example3.parsed (2675 # 1000)) 2
    = Example3.parsed (267 # 100)
  ∧ round_half_even (1 # 2) = 0%Z
  ∧ round_half_even (3 # 2) = 2%Z.
Proof. vm_compute. repeat split. Qed.

Lemma update_rounds_reading_witness :
  let out :=
    update Example.str (Example.answers (Example.data Example3.north))
      Example.distance 0 Example.world in
  ∃ lat lng battery,
    out.1 = inr tt
    ∧ _attributes (self out.2) !! ATTR_LATITUDE = Some (VNum lat)
    ∧ _attributes (self out.2) !! ATTR_LONGITUDE = Some (VNum lng)
    ∧ _attributes (self out.2) !! ATTR_BATTERY_LEVEL
      = Some (VNum (inject_Z battery))
    ∧ nearest_double (5212346 # 100000) lat
    ∧ rounded_to_5 (Example3.parsed (134 # 10)) lng
    ∧ nearest_integer 63 battery.
Proof.
  destruct (update_rounds_reading Example.str
              (Example.answers (Example.data Example3.north)) Example.distance
              0 Example.world {["data" := VList Example3.north]} []
              [] (Example.vehicle (Example3.parsed (52123456 # 1000000))
                    (Example3.parsed (134 # 10)) 63)
              (fetch Example.str
                 (Example.answers (Example.data Example3.north)) 0
                 Example.world).2
              (Qred (1000 * (Qabs (Example3.parsed (52123456 # 1000000) - 0)
                             + Qabs (Example3.parsed (134 # 10) - 0))))
              (Example3.parsed (52123456 # 1000000))
              (Example3.parsed (134 # 10)) 63)
    as (lat & lng & battery & H1 & H2 & H3 & H4 & H5 & H6 & H7 & H8).
  - vm_compute; reflexivity.
  - vm_compute; reflexivity.
  - vm_compute; reflexivity.
  - vm_compute; reflexivity.
  - constructor.
  - constructor.
  - vm_compute; reflexivity.
  - vm_compute; reflexivity.
  - vm_compute; reflexivity.
  - by apply is_double_parsed; vm_compute.
  - by apply is_double_parsed; vm_compute.
  - exists lat, lng, battery. split_and!; [exact H1|exact H2|exact H3|exact H4| |exact H6|exact H7].
    apply H8. apply round_to_double_nearest. by vm_compute.
Defined.

Lemma update_tests_truthiness_witness :
  let out :=
    update Example.str (Example.answers (VDict ∅)) Example.distance
      0 Example.stale in
  out.1 = inr tt
  ∧ logged out.2
    = [{| log_msg := "Empty result found when expecting list of vehicles";
          log_args := [] |}]
  ∧ _state (self out.2) = None ∧ _attributes (self out.2) = ∅.
Proof.
  destruct (update_tests_truthiness Example.str (Example.answers (VDict ∅))
              Example.distance 0 Example.stale) as [H _].
  - vm_compute; reflexivity.
  - destruct (H (VDict ∅)
                (fetch Example.str (Example.answers (VDict ∅)) 0
                   Example.stale).2) as (Hu & Hl & Hw & Hs & Ha).
    + vm_compute; reflexivity.
    + vm_compute; reflexivity.
    + cbv zeta. split_and!; [by rewrite Hu|
        rewrite Hl, Hw by discriminate; vm_compute; reflexivity
        |exact Hs|exact Ha].
Defined.

Lemma reading_invariant_witness :
  reading_ok
    (self (update Example.str (Example.answers (Example.data Example.three))
             Example.distance 0 Example.world).2).
Proof.
  destruct (reading_invariant Example.str
              (Example.answers (Example.data Example.three))
              Example.distance) as [Hinit Hstep].
  eapply (Hstep 0 Example.world).
  - apply Hinit.
  - reflexivity.
Defined.

(** * Further properties of the module *)


Section Further.

Variable str : Q → string.
Variable network : nat → string → list (string * string) → exn + Response.
Variable distance : value → value → Q → Q → exn + option Q.

Local Abbreviation update_over network' := (update str network' distance).
Local Abbreviation update := (update str network distance).
Local Abbreviation fetch := (fetch str network).
Local Abbreviation answer := (answer str network).

Lemma same_configuration_refl s : same_configuration s s.
Proof. by repeat split. Qed.

Lemma report_nearest_configuration s vehicles w r w' :
  report_nearest distance s vehicles w = (r, w') →
  same_configuration (self w) (self w').
Proof.
  unfold report_nearest. destruct (truthy vehicles);
    [|intros [= _ <-]; apply same_configuration_refl].
  unfold mbind, M_bind, lift, set_state, set_attribute.
  destruct (nearest_scooter _ _ _ _) as [|scooter]; [by intros [= _ <-]|].
  destruct (getitem scooter "distance") as [|d]; [by intros [= _ <-]|].
  destruct (round1 d) as [|st]; [by intros [= _ <-]|].
  destruct (getitem scooter "lat") as [|lat]; [by intros [= _ <-]|].
  destruct (round2 lat 5) as [|lat']; [by intros [= _ <-]|].
  destruct (getitem scooter "lng") as [|lng]; [by intros [= _ <-]|].
  destruct (round2 lng 5) as [|lng']; [by intros [= _ <-]|].
  destruct (getitem scooter "batteryLevel") as [|battery]; [by intros [= _ <-]|].
  destruct (round1 battery) as [|battery']; by intros [= _ <-].
Qed.

(** X2. A call of [update], whether it is suppressed, returns or raises,
    leaves the configuration of the sensor as it was: the API key, the name,
    the location and the radius; the [name] property keeps its value. *)
Theorem update_keeps_configuration (now : Z) (w : World)
    (r : exn + unit) (w' : World) :
  update now w = (r, w') →
  same_configuration (self w) (self w') ∧ name (self w') = name (self w).
Proof.
  intros Hu.
  cut (same_configuration (self w) (self w')).
  { intros H. split; [done|]. by destruct H as (_ & H & _). }
  destruct (permitted now w) eqn:Hp.
  - rewrite update_permitted, update_body_run in Hu by done.
    destruct (fetch now w) as [[e|result] w1] eqn:Hf;
      destruct (fetch_frame _ _ _ _ _ _ Hf) as (Hs1 & _ & _).
    { injection Hu as _ <-. by rewrite Hs1. }
    destruct (extract_vehicles result w1) as [[e|vehicles] w2] eqn:He;
      destruct (extract_vehicles_frame _ _ _ _ He) as (Hs2 & _ & _).
    { injection Hu as _ <-. by rewrite Hs2, Hs1. }
    apply report_nearest_configuration in Hu.
    rewrite Hs2, Hs1 in Hu. exact Hu.
  - rewrite update_suppressed in Hu by done. injection Hu as _ <-.
    apply same_configuration_refl.
Qed.

(** X3. A permitted cycle does not depend on the reading the sensor held:
    from any previous state and attributes it ends in the same way. *)
Theorem update_forgets_previous_reading (now : Z) (w : World)
    (st : option Z) (attributes : gmap string value) :
  permitted now w = true →
  update now
    (with_self (with_attributes attributes (with_state st (self w))) w)
  = update now w.
Proof.
  intros Hp. rewrite (update_permitted _ _ _ now w) by done.
  rewrite update_permitted by done. reflexivity.
Qed.

(** X1. [setup_platform] hands over one sensor, with an unknown reading. Its
    first [update], at whatever time, is let through and sends one request:
    to the URL of the configured location and radius, the location of the
    host and 500 standing in for what the configuration leaves out, with the
    configured key as [x-api-key] header. The answer to that request is all
    the cycle takes from the network, and what the library raises for it
    outside the handled classes the cycle raises. *)
Theorem first_update_after_setup (hass : Hass) (config : Config) (now : Z) :
  let latitude := default (hass_latitude hass) (CONF_LATITUDE config) in
  let longitude := default (hass_longitude hass) (CONF_LONGITUDE config) in
  let radius := default (inject_Z 500) (CONF_RADIUS config) in
  let url := request_url str latitude longitude radius in
  let headers := [("x-api-key", CONF_API_KEY config)] in
  ∃ s, setup_platform hass config = [s]
       ∧ state s = None ∧ extra_state_attributes s = ∅
       ∧ name s = default "Tier Nearest Scooter" (CONF_NAME config)
       ∧ permitted now (fresh s) = true
       ∧ sent (update now (fresh s)).2 = [url]
       ∧ last_update (update now (fresh s)).2 = Some now
       ∧ (∀ network',
            network' 0%nat url headers = network 0%nat url headers →
            update_over network' now (fresh s)
            = update now (fresh s))
       ∧ (∀ e, network 0%nat url headers = inl e → handled e = false →
               (update now (fresh s)).1 = inl e).
Proof.
  intros latitude longitude radius url headers. eexists.
  split; [reflexivity|].
  split_and!; try reflexivity.
  - destruct (update now (fresh _)) as [r w'] eqn:Hu.
    apply update_frame in Hu; [|done]. destruct Hu as [Hs _].
    unfold snd. by rewrite Hs.
  - destruct (update now (fresh _)) as [r w'] eqn:Hu.
    apply update_frame in Hu; [|done]. destruct Hu as [_ Hl].
    unfold snd. by rewrite Hl.
  - intros network' Hn. by apply update_same_answer.
  - intros e Hn He. apply update_unhandled; [done| |done].
    change (answer (fresh _)) with (network 0%nat url headers).
    by rewrite Hn.
Qed.

(** X4. When one of its library calls raises an exception it has a handler
    for, [get_vehicles] returns [None] after logging one record with the URL
    and the text of the exception: "Error fetching data" for a
    [RequestException], "Error parsing data" for another [ValueError]. The
    handlers are tried in that order, so the JSON error of [requests], which
    is both, is logged as a fetching error. *)
Theorem get_vehicles_logs_by_class (api : Api) (latitude longitude radius : Q)
    (w : World) (e : exn) :
  let url := request_url str latitude longitude radius in
  fetched (network (length (sent w)) url (request_headers api)) = inl e →
  handled e = true →
  get_vehicles str network api latitude longitude radius w
  = (inr VNone,
     add_log
       (if issubclass_RequestException (exn_class e)
        then {| log_msg := "Error fetching data: %s failed with %s";
                log_args := [url; exn_str e] |}
        else {| log_msg := "Error parsing data: %s failed with %s";
                log_args := [url; exn_str e] |})
       (add_sent url w))
  ∧ (exn_class e = RequestsJSONDecodeError →
     issubclass_RequestException (exn_class e) = true).
Proof.
  intros url Hf Hh. split; [|by intros ->].
  rewrite get_vehicles_run. fold url. rewrite Hf. unfold handled in Hh.
  destruct (issubclass_RequestException (exn_class e)); [done|].
  cbn in Hh. by rewrite Hh.
Qed.

(** X5. An exception of the library that [get_vehicles] has no handler for
    passes through [get_vehicles] and a permitted [update] unchanged: the
    request is counted and the time stamped, nothing is logged, and the
    reading is left unknown. *)
Theorem unhandled_exception_escapes (now : Z) (w : World) (e : exn) :
  let s := self w in
  let url := request_url str (_latitude s) (_longitude s) (_radius s) in
  permitted now w = true →
  fetched (answer w) = inl e →
  handled e = false →
  update now w = (inl e, add_sent url (reset now w))
  ∧ state (self (update now w).2) = None
  ∧ extra_state_attributes (self (update now w).2) = ∅
  ∧ logged (update now w).2 = logged w.
Proof.
  intros s url Hp Hf Hh.
  assert (update now w = (inl e, add_sent url (reset now w))) as ->; [|done].
  rewrite update_permitted, update_body_run, fetch_run by done.
  cbn. fold s. rewrite Hf. unfold handled in Hh.
  apply orb_false_iff in Hh as [-> ->]. done.
Qed.

(** X6. A permitted cycle whose fetch fails with a handled exception logs
    two records, the error of the fetch and then the "empty result" error;
    a response whose body is JSON [null] brings [None] as well, but only the
    second record is logged. *)
Theorem failed_fetch_logged_twice (now : Z) (w : World) :
  let s := self w in
  let url := request_url str (_latitude s) (_longitude s) (_radius s) in
  permitted now w = true →
  (∀ e, fetched (answer w) = inl e → handled e = true →
        ∃ record,
          log_args record = [url; exn_str e]
          ∧ update now w
            = (inr tt,
               add_log empty_log
                 (add_log record (add_sent url (reset now w)))))
  ∧ (fetched (answer w) = inr VNone →
     update now w
     = (inr tt, add_log empty_log (add_sent url (reset now w)))).
Proof.
  intros s url Hp. split.
  - intros e Hf Hh.
    pose proof (fetch_run str network now w) as Hr. cbn in Hr. fold s in Hr.
    rewrite Hf in Hr. unfold handled in Hh.
    destruct (issubclass_RequestException (exn_class e)).
    + exists (fetch_log url e). split; [done|].
      by apply (update_falsy _ _ _ now w VNone).
    + cbn in Hh. rewrite Hh in Hr.
      exists (parse_log url e). split; [done|].
      by apply (update_falsy _ _ _ now w VNone).
  - intros Hf.
    pose proof (fetch_run str network now w) as Hr. cbn in Hr. fold s in Hr.
    rewrite Hf in Hr. by apply (update_falsy _ _ _ now w VNone).
Qed.

(** X7. A permitted cycle whose result is a non-empty JSON object without
    ["data"] logs one record, the "erroneous result" error with the quoted
    key, and returns with the reading unknown; the other entries of the
    object play no part. *)
Theorem missing_data_logged_once (now : Z) (w : World)
    (m : gmap string value) :
  let s := self w in
  let url := request_url str (_latitude s) (_longitude s) (_radius s) in
  permitted now w = true →
  fetched (answer w) = inr (VDict m) →
  m ≠ ∅ → m !! "data" = None →
  update now w
  = (inr tt,
     add_log
       {| log_msg :=
            "Erroneous result found when expecting list of vehicles: %s";
          log_args := ["'data'"] |}
       (add_sent url (reset now w))).
Proof.
  intros s url Hp Hf Hm Hd.
  pose proof (fetch_run str network now w) as Hr. cbn in Hr. fold s in Hr.
  rewrite Hf in Hr. by apply (update_missing _ _ _ now w m).
Qed.

Lemma report_nearest_fails s vehicles w e :
  truthy vehicles = true →
  nearest_scooter distance (_latitude s) (_longitude s) vehicles = inl e →
  report_nearest distance s vehicles w = (inl e, w).
Proof.
  intros Ht Hn. unfold report_nearest. rewrite Ht.
  unfold mbind, M_bind, lift. by rewrite Hn.
Qed.

Lemma for_each_fails (f : value → exn + value) l1 u l2 e :
  Forall (λ v, ∃ v', f v = inr v') l1 → f u = inl e →
  for_each f (l1 ++ u :: l2) = inl e.
Proof.
  intros H1 Hu. induction H1 as [|v l1 [v' Hv] _ IH]; cbn.
  - by rewrite Hu.
  - rewrite Hv. cbn. by rewrite IH.
Qed.

Lemma measure_of_set_distance latitude longitude v d :
  measure_of distance latitude longitude v = Some d →
  set_distance distance latitude longitude v = inr (stored (of_option d) v)
  ∧ getitem (stored (of_option d) v) "distance" = inr (of_option d).
Proof.
  unfold measure_of, set_distance. intros H.
  destruct v as [| | | | | | |m]; try done.
  destruct (number_at (VDict m) "lat") as [a|] eqn:Ha; [|done].
  destruct (number_at (VDict m) "lng") as [b|] eqn:Hb; [|done].
  rewrite (number_at_getitem _ _ _ Ha), (number_at_getitem _ _ _ Hb). cbn.
  destruct (distance _ _ _ _) as [|d']; [done|].
  injection H as ->. cbn. by rewrite lookup_insert_eq.
Qed.

Lemma getitem_stored x v key :
  key ≠ "distance" → getitem (stored x v) key = getitem v key.
Proof.
  intros Hne. destruct v as [| | | | | | |m]; try done. cbn.
  by rewrite lookup_insert_ne.
Qed.

(** A cycle that stops at the battery level. *)
Lemma report_nearest_stops_at_battery s vehicles w v d a b e :
  truthy vehicles = true →
  nearest_scooter distance (_latitude s) (_longitude s) vehicles
  = inr (measured d v) →
  distance_to distance (_latitude s) (_longitude s) v = Some d →
  number_at v "lat" = Some a → number_at v "lng" = Some b →
  (x ← getitem v "batteryLevel"; round1 x) = inl e →
  report_nearest distance s vehicles w
  = (inl e,
     with_self
       (partial_reading (round_half_even d) (VNum (round_ndigits a 5))
          (VNum (round_ndigits b 5)) (self w)) w).
Proof.
  intros Ht Hn Hd Ha Hb Hc. unfold report_nearest. rewrite Ht.
  unfold mbind, M_bind, lift, set_state, set_attribute. rewrite Hn.
  destruct (set_distance_measured distance _ _ v d Hd) as [_ ->]. cbn.
  rewrite (number_at_getitem (measured d v) "lat" a)
    by (by rewrite number_at_measured).
  rewrite (number_at_getitem (measured d v) "lng" b)
    by (by rewrite number_at_measured).
  cbn.
  assert (getitem (measured d v) "batteryLevel" = getitem v "batteryLevel")
    as -> by (destruct v; try done; cbn; by rewrite lookup_insert_ne).
  unfold mbind, result_bind in Hc.
  destruct (getitem v "batteryLevel") as [e'|x]; [by injection Hc as ->|].
  by rewrite Hc.
Qed.

(** X8. When the vehicle [update] chooses has no usable battery level (the
    entry is missing, or is not a number), the exception of that step
    escapes after the state, the latitude and the longitude have been set:
    the sensor is left with a known state and two of its four attributes. A
    missing entry raises [KeyError]. *)
Theorem missing_battery_level_partial_reading (now : Z) (w : World)
    (m : gmap string value) (l1 l2 : list value) (v : value) (w1 : World)
    (d a b : Q) (e : exn) :
  let s := self w in
  permitted now w = true →
  fetch now w = (inr (VDict m), w1) →
  m !! "data" = Some (VList (l1 ++ v :: l2)) →
  distance_to distance (_latitude s) (_longitude s) v = Some d →
  Forall (λ u, ∃ du, distance_to distance (_latitude s) (_longitude s) u
                     = Some du ∧ (d < du)%Q) l1 →
  Forall (λ u, ∃ du, distance_to distance (_latitude s) (_longitude s) u
                     = Some du ∧ (d <= du)%Q) l2 →
  number_at v "lat" = Some a → number_at v "lng" = Some b →
  (x ← getitem v "batteryLevel"; round1 x) = inl e →
  ∃ w', update now w = (inl e, w')
        ∧ state (self w') = Some (round_half_even d)
        ∧ extra_state_attributes (self w')
          = <[ATTR_LONGITUDE := VNum (round_ndigits b 5)]>
              (<[ATTR_LATITUDE := VNum (round_ndigits a 5)]> ∅)
        ∧ ¬ reading_ok (self w')
        ∧ (∀ mv, v = VDict mv → mv !! "batteryLevel" = None →
                 e = Exn KeyError "'batteryLevel'").
Proof.
  intros s Hp Hf Hm Hd H1 H2 Ha Hb Hc.
  destruct (fetch_frame _ _ _ _ _ _ Hf) as (Hs & _ & _).
  rewrite (update_data _ _ _ now w m _ w1) by done.
  erewrite report_nearest_stops_at_battery;
    [| |by apply nearest_scooter_first_min|..]; try done; [|by destruct l1].
  eexists. split; [done|]. cbn. rewrite Hs. cbn. split_and!; try done.
  - intros [_ Hok]. destruct Hok as [Hdom _]; [by eexists|]. cbn in Hdom.
    rewrite !dom_insert_L, dom_empty_L in Hdom.
    assert (ATTR_ATTRIBUTION ∈ ({[ATTR_LONGITUDE]} ∪ ({[ATTR_LATITUDE]} ∪ ∅)
                                 : gset string)) as Hin
      by (rewrite Hdom; set_solver).
    set_solver.
  - intros mv -> Hmv. cbn in Hc. rewrite Hmv in Hc. by injection Hc as <-.
Qed.

(** X9. A truthy fetch result that is not a JSON object (an array, a string,
    a number, [true]) makes a permitted [update] raise a [TypeError] at
    [result["data"]]: only [KeyError] is caught there. Nothing is logged and
    the reading is left unknown. *)
Theorem non_object_result_raises (now : Z) (w : World) (result : value) :
  let s := self w in
  let url := request_url str (_latitude s) (_longitude s) (_radius s) in
  permitted now w = true →
  fetched (answer w) = inr result →
  truthy result = true →
  (∀ m, result ≠ VDict m) →
  ∃ e, update now w = (inl e, add_sent url (reset now w))
       ∧ is_TypeError e = true.
Proof.
  intros s url Hp Hf Ht Hr.
  rewrite update_permitted, update_body_run, fetch_run by done.
  cbn. fold s. rewrite Hf. unfold extract_vehicles, try_except, lift.
  rewrite Ht.
  destruct result as [| | | | | | |m]; try done;
    try (eexists; split; reflexivity).
  by destruct (Hr m).
Qed.

(** X10. A truthy ["data"] that is not a list (an object, a string, a
    number, [true]) makes a permitted [update] raise a [TypeError] in its
    loop. Nothing is logged and the reading is left unknown. *)
Theorem non_list_data_raises (now : Z) (w : World) (m : gmap string value)
    (d : value) :
  let s := self w in
  let url := request_url str (_latitude s) (_longitude s) (_radius s) in
  permitted now w = true →
  fetched (answer w) = inr (VDict m) →
  m !! "data" = Some d → truthy d = true →
  (∀ l, d ≠ VList l) →
  ∃ e, update now w = (inl e, add_sent url (reset now w))
       ∧ is_TypeError e = true.
Proof.
  intros s url Hp Hf Hd Ht Hl.
  pose proof (fetch_run str network now w) as Hr. cbn in Hr. fold s in Hr.
  rewrite Hf in Hr.
  rewrite (update_data _ _ _ now w m d _ Hp Hr Hd).
  cut (∃ e, nearest_scooter distance (_latitude (self (reset now w)))
              (_longitude (self (reset now w))) d = inl e
            ∧ is_TypeError e = true).
  { intros (e & He & Hte). exists e. split; [|done].
    by apply report_nearest_fails. }
  unfold nearest_scooter. destruct d as [|[]|q|n| |x|l|m']; try done.
  - by eexists.
  - by eexists.
  - by eexists.
  - by eexists.
  - destruct x as [|c x]; [done|]. by eexists.
  - by destruct (Hl l).
  - cbn. destruct (map_to_list m') as [|[k y] kl] eqn:Hk.
    + apply map_to_list_empty_iff in Hk. subst m'. cbn in Ht.
      by rewrite bool_decide_eq_true_2 in Ht.
    + by eexists.
Qed.

(** X11. Vehicles are measured in list order, and the first entry whose
    ["lat"] cannot be read (it is not an object, or has no such entry) stops
    a permitted cycle with the exception of that subscript: a [KeyError] for
    a missing entry. Nothing is logged and the reading is left unknown. *)
Theorem bad_vehicle_raises (now : Z) (w : World) (m : gmap string value)
    (l1 l2 : list value) (u : value) (e : exn) :
  let s := self w in
  let url := request_url str (_latitude s) (_longitude s) (_radius s) in
  permitted now w = true →
  fetched (answer w) = inr (VDict m) →
  m !! "data" = Some (VList (l1 ++ u :: l2)) →
  Forall (λ v, is_Some (measure_of distance (_latitude s) (_longitude s) v))
    l1 →
  getitem u "lat" = inl e →
  update now w = (inl e, add_sent url (reset now w))
  ∧ (∀ mu, u = VDict mu → e = Exn KeyError "'lat'").
Proof.
  intros s url Hp Hf Hd H1 Hu.
  pose proof (fetch_run str network now w) as Hr. cbn in Hr. fold s in Hr.
  rewrite Hf in Hr. split.
  - rewrite (update_data _ _ _ now w m _ _ Hp Hr Hd).
    apply report_nearest_fails; [by destruct l1|].
    unfold nearest_scooter. cbn.
    rewrite (for_each_fails _ l1 u l2 e); [done| |].
    + eapply Forall_impl; [exact H1|]. intros v [dv Hv].
      destruct (measure_of_set_distance _ _ v dv Hv) as [E _].
      eexists. exact E.
    + unfold set_distance. by rewrite Hu.
  - intros mu ->. cbn in Hu. destruct (mu !! "lat"); [done|].
    by injection Hu as <-.
Qed.

(** *** [sorted] on keys that may be [None] *)

Lemma lt_number_or_none x y :
  number_or_none x → number_or_none y →
  (∃ b, lt x.1 y.1 = inr b ∧ (∃ q, x.1 = VNum q) ∧ (∃ q, y.1 = VNum q))
  ∨ (∃ e, lt x.1 y.1 = inl e ∧ is_TypeError e = true
          ∧ (x.1 = VNone ∨ y.1 = VNone)).
Proof.
  intros [[p ->]| ->] [[q ->]| ->].
  - left. eexists. split; [done|]. split; by eexists.
  - right. eexists. split_and!; [done..|by right].
  - right. eexists. split_and!; [done..|by left].
  - right. eexists. split_and!; [done..|by left].
Qed.

Lemma insert_returns (P : value * value → Prop) x l s :
  Sorted.insert x l = inr s → P x → Forall P l →
  length s = S (length l) ∧ Forall P s.
Proof.
  revert s. induction l as [|y l IH]; cbn; intros s.
  - intros [= <-] Hx _. split; [done|]. by constructor.
  - intros Hs Hx Hl. inversion Hl as [|? ? Hy Hl']; subst.
    destruct (lt y.1 x.1) as [|[]]; cbn in Hs; [done| |].
    + destruct (Sorted.insert x l) as [|s'] eqn:Hi; [done|].
      cbn in Hs. injection Hs as <-.
      destruct (IH s' eq_refl Hx Hl') as [Hlen Hs'].
      split; [cbn; by rewrite Hlen | by constructor].
    + injection Hs as <-. split; [done|]. by repeat constructor.
Qed.

Lemma sort_returns (P : value * value → Prop) l s :
  Sorted.sort l = inr s → Forall P l → length s = length l ∧ Forall P s.
Proof.
  revert s. induction l as [|x l IH]; cbn; intros s.
  - by intros [= <-].
  - intros Hs Hl. inversion Hl as [|? ? Hx Hl']; subst.
    destruct (Sorted.sort l) as [|s'] eqn:Hsort; [done|]. cbn in Hs.
    destruct (IH s' eq_refl Hl') as [Hlen Hs'].
    destruct (insert_returns P x s' s Hs Hx Hs') as [Hlen' HP].
    split; [by rewrite Hlen', Hlen | done].
Qed.

Lemma insert_raises x l e :
  Sorted.insert x l = inl e → number_or_none x → Forall number_or_none l →
  is_TypeError e = true.
Proof.
  induction l as [|y l IH]; cbn; [done|].
  intros He Hx Hl. inversion Hl as [|? ? Hy Hl']; subst.
  destruct (lt_number_or_none y x Hy Hx)
    as [(b & Hb & _)|(e' & He' & Hte & _)].
  - rewrite Hb in He. cbn in He. destruct b; [|done].
    destruct (Sorted.insert x l) as [e''|]; [|done]. cbn in He.
    injection He as <-. by apply IH.
  - rewrite He' in He. cbn in He. by injection He as <-.
Qed.

Lemma sort_raises l e :
  Sorted.sort l = inl e → Forall number_or_none l → is_TypeError e = true.
Proof.
  revert e. induction l as [|x l IH]; cbn; [done|].
  intros e He Hl. inversion Hl as [|? ? Hx Hl']; subst.
  destruct (Sorted.sort l) as [e'|s] eqn:Hs; cbn in He.
  - injection He as <-. by apply IH.
  - eapply insert_raises; [exact He|done|].
    by destruct (sort_returns number_or_none l s Hs Hl').
Qed.

Lemma insert_none_raises x y l :
  number_or_none x → number_or_none y → x.1 = VNone ∨ y.1 = VNone →
  ∃ e, Sorted.insert x (y :: l) = inl e.
Proof.
  intros Hx Hy Hn. cbn.
  destruct (lt_number_or_none y x Hy Hx)
    as [(b & _ & [p Hp] & [q Hq])|(e & -> & _)]; [|by eexists].
  destruct Hn as [Hn|Hn]; congruence.
Qed.

(** Two keys or more, one of them [None]: the comparison fails. *)
Lemma sort_none_raises l :
  Forall number_or_none l → Exists (λ x, x.1 = VNone) l →
  (2 <= length l)%nat →
  ∃ e, Sorted.sort l = inl e ∧ is_TypeError e = true.
Proof.
  intros Hl. induction Hl as [|x l Hx Hl IH]; [by intros ?%Exists_nil|].
  intros Hex Hlen.
  cut (∃ e, Sorted.sort (x :: l) = inl e).
  { intros [e He]. exists e. split; [done|].
    eapply sort_raises; [exact He|by constructor]. }
  cbn. destruct (Sorted.sort l) as [e|s] eqn:Hs; [by eexists|]. cbn.
  destruct (sort_returns number_or_none l s Hs Hl) as [Hlen' Hs'].
  destruct s as [|y s]; [destruct l; cbn in *; [lia|done]|].
  inversion Hs' as [|? ? Hy _]; subst.
  apply insert_none_raises; try done.
  apply Exists_cons in Hex as [Hex|Hex]; [by left|right].
  destruct l as [|y0 [|y1 l]]; [by apply Exists_nil in Hex| |].
  - cbn in Hs. injection Hs as <- <-.
    by apply Exists_cons in Hex as [?|?%Exists_nil].
  - destruct IH as (e & He & _); [done|cbn; lia|]. congruence.
Qed.

Lemma for_each_keys_any latitude longitude l :
  Forall (λ v, is_Some (measure_of distance latitude longitude v)) l →
  ∃ l',
    for_each (set_distance distance latitude longitude) l = inr l'
    ∧ Sorted.keys (λ item, getitem item "distance") l'
      = inr (keyed_any distance latitude longitude <$> l).
Proof.
  induction 1 as [|v l [d Hd] _ (l' & IH1 & IH2)]; cbn.
  - by exists [].
  - destruct (measure_of_set_distance latitude longitude v d Hd) as [-> Hget].
    cbn. rewrite IH1. cbn. eexists. split; [done|]. cbn.
    rewrite Hget. cbn. rewrite IH2. cbn.
    unfold keyed_any at 2. by rewrite Hd.
Qed.

(** X12. [update] does not expect [distance] to return [None]. When every
    vehicle of a non-empty list can be measured and the measure of one of
    them is [None], a permitted cycle raises a [TypeError]: from [sorted]
    when there are two vehicles or more, from [round] when there is one.
    Nothing is logged and the reading is left unknown. *)
Theorem none_distance_raises (now : Z) (w : World) (m : gmap string value)
    (l : list value) (v : value) :
  let s := self w in
  let url := request_url str (_latitude s) (_longitude s) (_radius s) in
  permitted now w = true →
  fetched (answer w) = inr (VDict m) →
  m !! "data" = Some (VList l) →
  Forall (λ u, is_Some (measure_of distance (_latitude s) (_longitude s) u))
    l →
  v ∈ l →
  measure_of distance (_latitude s) (_longitude s) v = Some None →
  ∃ e, update now w = (inl e, add_sent url (reset now w))
       ∧ is_TypeError e = true.
Proof.
  intros s url Hp Hf Hd Hl Hv Hnone.
  pose proof (fetch_run str network now w) as Hr. cbn in Hr. fold s in Hr.
  rewrite Hf in Hr.
  rewrite (update_data _ _ _ now w m _ _ Hp Hr Hd).
  assert (truthy (VList l) = true) as Ht by (destruct l; [set_solver|done]).
  destruct (for_each_keys_any (_latitude s) (_longitude s) l Hl)
    as (l' & Hfe & Hk).
  set (kl := keyed_any distance (_latitude s) (_longitude s) <$> l) in *.
  assert (Forall number_or_none kl) as Hnn.
  { apply Forall_fmap. eapply Forall_impl; [exact Hl|].
    intros u [[du|] Hu]; unfold keyed_any; cbn; rewrite Hu;
      [left; by eexists | by right]. }
  assert (Exists (λ x, x.1 = VNone) kl) as Hex.
  { apply Exists_fmap, Exists_exists. exists v. split; [done|].
    unfold keyed_any. cbn. by rewrite Hnone. }
  destruct l as [|v0 [|v1 l]]; [set_solver| |].
  - apply list_elem_of_singleton in Hv as ->.
    unfold report_nearest. rewrite Ht.
    unfold mbind, M_bind, lift, nearest_scooter, Sorted.sorted. cbn.
    cbn in Hfe. fold s. rewrite Hfe. cbn. cbn in Hk. rewrite Hk. cbn.
    unfold keyed_any. rewrite Hnone. cbn.
    destruct (measure_of_set_distance _ _ v0 None Hnone) as [_ Hget].
    cbn in Hget. rewrite Hget. cbn. by eexists.
  - destruct (sort_none_raises kl Hnn Hex) as (e & He & Hte);
      [subst kl; cbn; lia|].
    exists e. split; [|done]. apply report_nearest_fails; [done|].
    unfold nearest_scooter, Sorted.sorted. cbn [iter].
    unfold mbind at 1, result_bind at 1.
    cbn [self reset with_self _latitude _longitude with_state with_attributes].
    fold s. rewrite Hfe. cbn [mbind result_bind].
    unfold mbind, result_bind. rewrite Hk, He. done.
Qed.
End Further.

(** ** Instances *)


Lemma update_keeps_configuration_witness :
  let w' :=
    (update Example.str (Example.answers (Example.data Example.three))
       Example.distance 0 Example.world).2 in
  same_configuration Example.sensor (self w')
  ∧ name (self w') = "Tier Nearest Scooter".
Proof.
  apply (update_keeps_configuration Example.str
           (Example.answers (Example.data Example.three)) Example.distance
           0 Example.world (inr tt)).
  reflexivity.
Defined.

Lemma update_forgets_previous_reading_witness :
  update Example.str (Example.answers (Example.data Example.tied))
    Example.distance 0 Example.stale
  = update Example.str (Example.answers (Example.data Example.tied))
      Example.distance 0 Example.world.
Proof.
  apply (update_forgets_previous_reading Example.str
           (Example.answers (Example.data Example.tied)) Example.distance
           0 Example.world (Some 80%Z)
           (reported_attributes 0 (801 # 10000) 77)).
  reflexivity.
Defined.

Lemma get_vehicles_logs_by_class_witness :
  let s := Example.sensor in
  let url := request_url Example.str (_latitude s) (_longitude s) (_radius s) in
  (get_vehicles Example.str Example2.garbled (_api s) (_latitude s)
     (_longitude s) (_radius s) Example.world).1 = inr VNone
  ∧ logged
      (get_vehicles Example.str Example2.garbled (_api s) (_latitude s)
         (_longitude s) (_radius s) Example.world).2
    = [{| log_msg := "Error fetching data: %s failed with %s";
          log_args := [url; "Expecting value"] |}].
Proof.
  intros s url.
  destruct (get_vehicles_logs_by_class Example.str Example2.garbled
              (_api s) (_latitude s) (_longitude s) (_radius s) Example.world
              (Exn RequestsJSONDecodeError "Expecting value")
              eq_refl eq_refl) as [-> _].
  split; reflexivity.
Defined.

Lemma unhandled_exception_escapes_witness :
  (update Example.str Example2.breaks Example.distance 0 Example.stale).1
  = inl (Exn TypeError "unexpected keyword argument")
  ∧ state (self (update Example.str Example2.breaks Example.distance
                   0 Example.stale).2) = None
  ∧ logged (update Example.str Example2.breaks Example.distance
              0 Example.stale).2 = [].
Proof.
  destruct (unhandled_exception_escapes Example.str Example2.breaks
              Example.distance 0 Example.stale
              (Exn TypeError "unexpected keyword argument")
              eq_refl eq_refl eq_refl) as (-> & _ & _ & _).
  split_and!; reflexivity.
Defined.

Lemma failed_fetch_logged_twice_witness :
  length (logged (update Example.str Example.times_out Example.distance
                    0 Example.world).2) = 2%nat.
Proof.
  destruct (failed_fetch_logged_twice Example.str Example.times_out
              Example.distance 0 Example.world eq_refl) as [H _].
  destruct (H (Exn Timeout "Read timed out.") eq_refl eq_refl)
    as (record & _ & ->).
  reflexivity.
Defined.

Lemma missing_data_logged_once_witness :
  logged (update Example.str (Example.answers Example2.refused)
            Example.distance 0 Example.world).2
  = [{| log_msg :=
          "Erroneous result found when expecting list of vehicles: %s";
        log_args := ["'data'"] |}].
Proof.
  rewrite (missing_data_logged_once Example.str
             (Example.answers Example2.refused) Example.distance
             0 Example.world {["message" := VStr "Forbidden"]});
    [reflexivity..| |reflexivity].
  by apply insert_non_empty.
Defined.

Lemma missing_battery_level_partial_reading_witness :
  ∃ w', update Example.str (Example.answers (Example.data [Example2.flat]))
          Example.distance 0 Example.world
        = (inl (Exn KeyError "'batteryLevel'"), w')
        ∧ state (self w') = Some 100%Z
        ∧ ¬ reading_ok (self w').
Proof.
  destruct (missing_battery_level_partial_reading Example.str
              (Example.answers (Example.data [Example2.flat]))
              Example.distance 0 Example.world _ [] [] Example2.flat _
              100 (1 # 10) 0 (Exn KeyError "'batteryLevel'")
              eq_refl eq_refl eq_refl eq_refl)
    as (w' & Hu & Hst & _ & Hno & _);
    [constructor | constructor | reflexivity | reflexivity
    | vm_compute; reflexivity |].
  exists w'. split; [exact Hu|]. split; [exact Hst | exact Hno].
Defined.

Lemma non_object_result_raises_witness :
  ∃ e, (update Example.str (Example.answers (VStr "Bad Gateway"))
          Example.distance 0 Example.world).1 = inl e
       ∧ is_TypeError e = true.
Proof.
  destruct (non_object_result_raises Example.str
              (Example.answers (VStr "Bad Gateway")) Example.distance
              0 Example.world (VStr "Bad Gateway") eq_refl eq_refl eq_refl)
    as (e & Hu & He); [done|].
  exists e. split; [by rewrite Hu | exact He].
Defined.

Lemma non_list_data_raises_witness :
  ∃ e, (update Example.str
          (Example.answers (VDict {["data" := Example2.refused]}))
          Example.distance 0 Example.world).1 = inl e
       ∧ is_TypeError e = true.
Proof.
  destruct (non_list_data_raises Example.str
              (Example.answers (VDict {["data" := Example2.refused]}))
              Example.distance 0 Example.world
              {["data" := Example2.refused]} Example2.refused)
    as (e & Hu & He);
    [reflexivity | reflexivity | vm_compute; reflexivity
    | vm_compute; reflexivity | done |].
  exists e. split; [by rewrite Hu | exact He].
Defined.

Lemma bad_vehicle_raises_witness :
  (update Example.str
     (Example.answers
        (Example.data [Example.vehicle (1 # 10) 0 40; Example2.adrift]))
     Example.distance 0 Example.world).1
  = inl (Exn KeyError "'lat'").
Proof.
  destruct (bad_vehicle_raises Example.str
              (Example.answers
                 (Example.data [Example.vehicle (1 # 10) 0 40; Example2.adrift]))
              Example.distance 0 Example.world
              {["data" := VList [Example.vehicle (1 # 10) 0 40; Example2.adrift]]}
              [Example.vehicle (1 # 10) 0 40] [] Example2.adrift
              (Exn KeyError "'lat'"))
    as [Hu _];
    [reflexivity | reflexivity | vm_compute; reflexivity | |
     vm_compute; reflexivity |].
  - constructor; [|constructor]. eexists. vm_compute. reflexivity.
  - by rewrite Hu.
Defined.

Lemma none_distance_raises_witness :
  ∃ e, (update Example.str
          (Example.answers
             (Example.data
                [Example.vehicle (1 # 10) 0 40; Example.vehicle 85 0 90]))
          Example2.distance 0 Example.world).1 = inl e
       ∧ is_TypeError e = true.
Proof.
  destruct (none_distance_raises Example.str
              (Example.answers
                 (Example.data
                    [Example.vehicle (1 # 10) 0 40; Example.vehicle 85 0 90]))
              Example2.distance 0 Example.world
              {["data" := VList [Example.vehicle (1 # 10) 0 40;
                                 Example.vehicle 85 0 90]]}
              [Example.vehicle (1 # 10) 0 40; Example.vehicle 85 0 90]
              (Example.vehicle 85 0 90))
    as (e & Hu & He);
    [reflexivity | reflexivity | vm_compute; reflexivity | | |
     vm_compute; reflexivity |].
  - repeat constructor; eexists; vm_compute; reflexivity.
  - apply list_elem_of_In. right. by left.
  - exists e. split; [by rewrite Hu | exact He].
Defined.

Lemma first_update_after_setup_witness :
  ∃ s, setup_platform Example2.hass Example2.config = [s]
       ∧ sent (update Example.str Example2.breaks Example.distance 0
                 (fresh s)).2
         = [request_url Example.str (525 # 10) (134 # 10) 500]
       ∧ (update Example.str Example2.breaks Example.distance 0 (fresh s)).1
         = inl (Exn TypeError "unexpected keyword argument").
Proof.
  destruct (first_update_after_setup Example.str Example2.breaks
              Example.distance Example2.hass Example2.config 0)
    as (s & Hs & _ & _ & _ & _ & Hsent & _ & _ & He).
  exists s. split; [exact Hs|]. split; [exact Hsent|].
  apply He; vm_compute; reflexivity.
Defined.
